(** * Centria letter library generator: contour extraction and extrusion

    A shallow embedding of [generate_letter_library.py] (class
    [LetterSTLGenerator]) and the properties of its contour-to-solid
    pipeline.

    Numbers.  The script computes on numpy [float64] values.  The embedding
    is written once over an interface [Scalar] of the float operations the
    script uses, with two instances: [b64_scalar], IEEE-754 binary64 with
    round-to-nearest-even (the arithmetic the script really runs on, taken
    from the Standard Library's executable [SpecFloat]), and [Qc_scalar],
    exact rational arithmetic (what the computation means without
    rounding).  Results that do not depend on arithmetic laws are proved
    for every instance.

    Collaborators.  PIL, scikit-image, trimesh and the file system are not
    part of the script; they appear as the interface [Libs] (pure functions
    that may raise) and as the small file-system model [FS].

    Entry points.  The two batch functions, [_print_summary] and [main]
    run in a [session], which holds what has been printed and the disk;
    directory listings are read off the disk by [Listing]. *)

From Stdlib Require Import ZArith QArith Qcanon Qcabs SpecFloat Ascii Sorted.
From stdpp Require Import gmap strings list fin_maps.

Local Open Scope nat_scope.

(** ** Numbers *)

(** The float operations used by the script: literals, [+ - * /], unary
    minus, [np.abs], the binary step of [np.max], and the test [x > 0]. *)
Class Scalar (R : Type) := {
  of_Z : Z -> R;
  fadd : R -> R -> R;
  fsub : R -> R -> R;
  fmul : R -> R -> R;
  fdiv : R -> R -> R;
  fopp : R -> R;
  fabs : R -> R;
  fmaximum : R -> R -> R;
  gt_zero : R -> bool
}.

Module B64.
(** binary64: 53 bits of precision, exponents below 1024. *)
Definition prec : Z := 53.
Definition emax : Z := 1024.

Definition of_Z (z : Z) : spec_float := binary_normalize prec emax z 0 false.

Definition is_nan (x : spec_float) : bool :=
  match x with S754_nan => true | _ => false end.

(** [np.maximum]: a NaN operand wins, otherwise the larger one. *)
Definition maximum (x y : spec_float) : spec_float :=
  if is_nan x then x
  else if is_nan y then y
  else if SFltb x y then y else x.
End B64.

#[export] Instance b64_scalar : Scalar spec_float := {|
  of_Z := B64.of_Z;
  fadd := SFadd B64.prec B64.emax;
  fsub := SFsub B64.prec B64.emax;
  fmul := SFmul B64.prec B64.emax;
  fdiv := SFdiv B64.prec B64.emax;
  fopp := SFopp;
  fabs := SFabs;
  fmaximum := B64.maximum;
  gt_zero := fun x => SFltb (B64.of_Z 0) x
|}.

Definition Qc_ltb (x y : Qc) : bool :=
  match Qccompare x y with Lt => true | _ => false end.

Definition Qc_of_Z (z : Z) : Qc := Q2Qc (inject_Z z).

#[export] Instance Qc_scalar : Scalar Qc := {|
  of_Z := Qc_of_Z;
  fadd := Qcplus;
  fsub := Qcminus;
  fmul := Qcmult;
  fdiv := Qcdiv;
  fopp := Qcopp;
  fabs := Qcabs;
  fmaximum := fun x y => if Qc_ltb x y then y else x;
  gt_zero := fun x => Qc_ltb (Qc_of_Z 0) x
|}.

(** ** Exceptions *)

(** Instances of Python's [Exception], the class the handler of line 226
    names: the ones the modelled code raises itself, and [LibraryError]
    for whatever a collaborator raises.  What is not an [Exception]
    ([KeyboardInterrupt], [SystemExit]) is outside the model. *)
Inductive exn :=
| ValueError (msg : string)
| FileNotFoundError (path : string)
| FileExistsError (path : string)
| NotADirectoryError (path : string)
| IsADirectoryError (path : string)
| LibraryError (msg : string).

(** A call that returns a value or raises. *)
Inductive result (A : Type) :=
| Ok (a : A)
| Raise (e : exn).
Arguments Ok {A} a.
Arguments Raise {A} e.

(** ** The contour extractor's downsampling, [main_contour[::step]] *)

Section Slicing.
Context {A : Type}.

(** [every_nth step skip l]: drop [skip] elements, keep one, then keep
    every [step]-th one. *)
Fixpoint every_nth (step skip : nat) (l : list A) : list A :=
  match l with
  | [] => []
  | x :: l' =>
      match skip with
      | 0 => x :: every_nth step (step - 1) l'
      | S k => every_nth step k l'
      end
  end.

(** [l[::step]] for [step >= 1] (Python raises on a zero step; the
    script's [max(1, ...)] keeps the step positive). *)
Definition slice_step (step : nat) (l : list A) : list A :=
  every_nth step 0 l.

(** [max(contours, key=len)]: the first of the longest elements. *)
Fixpoint max_by_len (best : list A) (rest : list (list A)) : list A :=
  match rest with
  | [] => best
  | c :: rest' =>
      if length best <? length c then max_by_len c rest'
      else max_by_len best rest'
  end.
End Slicing.

(** Lines 130-133: the stride and the simplified contour. *)
Definition contour_step (len : nat) : nat := Nat.max 1 (len / 100).

Definition simplify {A : Type} (main_contour : list A) : list A :=
  slice_step (contour_step (length main_contour)) main_contour.

(** ** The solid extruder's arrays *)

(** A face is a triple of vertex indices, a vertex a triple of
    coordinates. *)
Definition face : Type := nat * nat * nat.

Record arrays (R : Type) := mk_arrays {
  vertices : list (R * R * R);
  faces : list face
}.
Arguments mk_arrays {R} _ _.
Arguments vertices {R} _.
Arguments faces {R} _.

Section Extrusion.
Context {R : Type} {SR : Scalar R}.

(** A contour is an [(n, 2)] array: column 0 is the image row of a
    point, column 1 its image column ([find_contours] convention). *)
Definition contour : Type := list (R * R).

(** [np.add.reduce] along axis 0 of one column: left to right from the
    first element. *)
Definition reduce (f : R -> R -> R) (x : R) (xs : list R) : R :=
  fold_left f xs x.

Definition column_sum (xs : list R) : R :=
  match xs with
  | [] => of_Z 0
  | x :: xs' => reduce fadd x xs'
  end.

(** [coords.mean(axis=0)] *)
Definition mean_axis0 (coords : contour) : R * R :=
  let n := of_Z (Z.of_nat (length coords)) in
  (fdiv (column_sum (map fst coords)) n,
   fdiv (column_sum (map snd coords)) n).

(** [coords -= center] *)
Definition center_coords (coords : contour) : contour :=
  let c := mean_axis0 coords in
  map (fun p => (fsub p.1 c.1, fsub p.2 c.2)) coords.

(** The array flattened in row-major order. *)
Definition flatten (coords : contour) : list R :=
  flat_map (fun p => [p.1; p.2]) coords.

(** [np.max(np.abs(coords))]; the empty array has no maximum. *)
Definition max_extent (coords : contour) : option R :=
  match map fabs (flatten coords) with
  | [] => None
  | x :: xs => Some (reduce fmaximum x xs)
  end.

(** [coords * (40.0 / max_extent)] *)
Definition scale_coords (m : R) (coords : contour) : contour :=
  let k := fdiv (of_Z 40) m in
  map (fun p => (fmul p.1 k, fmul p.2 k)) coords.

(** Lines 148-150. *)
Definition scale_to_width (m : R) (coords : contour) : contour :=
  if gt_zero m then scale_coords m coords else coords.

(** [coords[:, 1] = -coords[:, 1]] *)
Definition flip_axis1 (coords : contour) : contour :=
  map (fun p => (p.1, fopp p.2)) coords.

(** Lines 144-153: [None] when [np.max] raises on the empty array. *)
Definition normalize (contour_points : contour) : option contour :=
  let coords := center_coords contour_points in
  match max_extent coords with
  | None => None
  | Some m => Some (flip_axis1 (scale_to_width m coords))
  end.

(** [np.column_stack([coords, z])] with a constant third column. *)
Definition ring (z : R) (coords : contour) : list (R * R * R) :=
  map (fun p => (p.1, p.2, z)) coords.

(** Lines 169-172. *)
Definition side_faces (n_points : nat) : list face :=
  flat_map (fun i => [(i, i + 1, i + 1 + n_points);
                      (i, i + 1 + n_points, i + n_points)])
           (seq 0 (n_points - 1)).

(** Lines 175-176. *)
Definition closing_faces (n_points : nat) : list face :=
  [(n_points - 1, 0, n_points);
   (n_points - 1, n_points, 2 * n_points - 1)].

(** Lines 179-180; [range(1, n_points - 1)] has [n_points - 2]
    elements. *)
Definition bottom_faces (n_points : nat) : list face :=
  map (fun i => (0, i + 1, i)) (seq 1 (n_points - 2)).

(** Lines 183-184. *)
Definition top_faces (n_points : nat) : list face :=
  map (fun i => (n_points, n_points + i, n_points + i + 1))
      (seq 1 (n_points - 2)).

Definition build_faces (n_points : nat) : list face :=
  side_faces n_points ++ closing_faces n_points
    ++ bottom_faces n_points ++ top_faces n_points.

(** Lines 141-187 of [_extrude_contour]: the vertex and face arrays
    handed to [trimesh.Trimesh].  Indices are naturals: every
    subtraction is reached with [n_points >= 1] only. *)
Definition extrude_arrays (contour_points : contour) (height : R)
  : result (arrays R) :=
  match normalize contour_points with
  | None =>
      Raise (ValueError "zero-size array to reduction operation maximum which has no identity")
  | Some coords =>
      let n_points := length coords in
      let bottom := ring (of_Z 0) coords in
      let top := ring height coords in
      Ok (mk_arrays (bottom ++ top) (build_faces n_points))
  end.
End Extrusion.

(** ** One point and one wall segment, for the statements below *)

Section Pointwise.
Context {R : Type} {SR : Scalar R}.

(** What lines 145-153 do to one point, given the mean [c] and the
    extent [m] of the whole array. *)
Definition transform_point (c : R * R) (m : R) (p : R * R) : R * R :=
  let q := (fsub p.1 c.1, fsub p.2 c.2) in
  let s := if gt_zero m
           then (fmul q.1 (fdiv (of_Z 40) m), fmul q.2 (fdiv (of_Z 40) m))
           else q in
  (s.1, fopp s.2).

(** The two triangles of the wall between ring positions [i] and [j]. *)
Definition wall_quad (n_points i j : nat) : list face :=
  [(i, j, j + n_points); (i, j + n_points, i + n_points)].

Definition face_in_range (bound : nat) (f : face) : Prop :=
  f.1.1 < bound /\ f.1.2 < bound /\ f.2 < bound.
End Pointwise.

(** ** Paths and the file system (the [pathlib] and OS collaborator) *)

Module FS.
(** A [PurePosixPath]: whether it starts at the root, and its
    components. *)
Record path := mk_path { anchored : bool; parts : list string }.

Fixpoint split_slash (s : string) : list string :=
  match s with
  | EmptyString => [EmptyString]
  | String c s' =>
      if Ascii.eqb c "/"%char then EmptyString :: split_slash s'
      else match split_slash s' with
           | [] => [String c EmptyString]
           | w :: ws => String c w :: ws
           end
  end.

(** Whether a string contains the separator. *)
Fixpoint has_slash (s : string) : bool :=
  match s with
  | EmptyString => false
  | String c s' => Ascii.eqb c "/"%char || has_slash s'
  end.

Definition keep_part (w : string) : bool :=
  negb (String.eqb w "" || String.eqb w ".").

(** [Path(s)]: empty and [.] components are dropped (a leading double
    slash is not told apart from a single one). *)
Definition FilePath (s : string) : path :=
  mk_path (String.prefix "/" s) (List.filter keep_part (split_slash s)).

(** [p / s]: an absolute right operand replaces the left one. *)
Definition join (p : path) (s : string) : path :=
  let q := FilePath s in
  if anchored q then q else mk_path (anchored p) (parts p ++ parts q).

(** [str(p)] *)
Definition str (p : path) : string :=
  if anchored p then String.append "/" (String.concat "/" (parts p))
  else match parts p with
       | [] => "."
       | _ => String.concat "/" (parts p)
       end.

Definition parent (p : path) : path :=
  mk_path (anchored p) (removelast (parts p)).

(** The proper ancestors of [p] below the root or the working
    directory. *)
Definition ancestors (p : path) : list path :=
  map (fun k => mk_path (anchored p) (take k (parts p)))
      (seq 1 (length (parts p) - 1)).

Definition content : Type := list Byte.byte.

(** Directories and regular files, by path string.  The root and the
    working directory always exist. *)
Record state := mk_state {
  dirs : gset string;
  files : gmap string content
}.

Definition dir_present (ds : gset string) (p : path) : bool :=
  match parts p with
  | [] => true
  | _ => bool_decide (str p ∈ ds)
  end.

Definition is_dir (fs : state) (p : path) : bool := dir_present (dirs fs) p.

Definition is_file (fs : state) (p : path) : bool :=
  bool_decide (is_Some (files fs !! str p)).

(** What stops the creation of an entry at [p], if anything. *)
Definition entry_error (fs : state) (p : path) : option exn :=
  if is_dir fs (parent p) then None
  else if existsb (is_file fs) (ancestors p)
       then Some (NotADirectoryError (str p))
       else Some (FileNotFoundError (str p)).

(** [os.mkdir(p)] *)
Definition os_mkdir (p : path) (fs : state) : result unit * state :=
  if is_dir fs p || is_file fs p then (Raise (FileExistsError (str p)), fs)
  else match entry_error fs p with
       | Some e => (Raise e, fs)
       | None => (Ok tt, mk_state ({[str p]} ∪ dirs fs) (files fs))
       end.

(** [Path.mkdir(parents=False, exist_ok=...)] *)
Definition mkdir_flat (exist_ok : bool) (p : path) (fs : state)
  : result unit * state :=
  match os_mkdir p fs with
  | (Raise (FileExistsError s), _) =>
      if exist_ok && is_dir fs p then (Ok tt, fs)
      else (Raise (FileExistsError s), fs)
  | r => r
  end.

(** [Path.mkdir(parents=True, exist_ok=...)], by recursion on the
    components from the last one: a missing parent is created first
    (with [parents=True, exist_ok=True]), then [p] itself. *)
Fixpoint mkdir_parents (exist_ok : bool) (anch : bool)
    (rev_parts : list string) (fs : state) : result unit * state :=
  let p := mk_path anch (rev rev_parts) in
  match os_mkdir p fs with
  | (Raise (FileNotFoundError s), _) =>
      match rev_parts with
      | [] => (Raise (FileNotFoundError s), fs)
      | _ :: rev_parent =>
          match mkdir_parents true anch rev_parent fs with
          | (Ok _, fs1) => mkdir_flat exist_ok p fs1
          | r => r
          end
      end
  | (Raise (FileExistsError s), _) =>
      if exist_ok && is_dir fs p then (Ok tt, fs)
      else (Raise (FileExistsError s), fs)
  | r => r
  end.

Definition mkdir (parents exist_ok : bool) (p : path) (fs : state)
  : result unit * state :=
  if parents then mkdir_parents exist_ok (anchored p) (rev (parts p)) fs
  else mkdir_flat exist_ok p fs.

(** Writing a whole file at [p], as [open(p, 'wb')] then [write]. *)
Definition write_file (p : path) (c : content) (fs : state)
  : result unit * state :=
  if is_dir fs p then (Raise (IsADirectoryError (str p)), fs)
  else match entry_error fs p with
       | Some e => (Raise e, fs)
       | None => (Ok tt, mk_state (dirs fs) (<[str p := c]> (files fs)))
       end.

(** [p.stat().st_size]; the size of a directory entry is not modelled
    (0). *)
Definition stat_size (p : path) (fs : state) : result nat :=
  match files fs !! str p with
  | Some c => Ok (length c)
  | None => if is_dir fs p then Ok 0 else Raise (FileNotFoundError (str p))
  end.

Definition empty : state := mk_state ∅ ∅.
End FS.

(** A directory creation that returns leaves the directory in place,
    removes no directory and touches no file. *)
Definition mkdir_post (p : FS.path) (fs fs' : FS.state) : Prop :=
  FS.is_dir fs' p = true /\ FS.dirs fs ⊆ FS.dirs fs' /\
  FS.files fs' = FS.files fs.

(** ** The library collaborators *)

(** PIL, scikit-image and trimesh as the script calls them: functions of
    their arguments that return a value or raise. *)
Class Libs (R : Type) := {
  font : Type;
  image : Type;
  trimesh : Type;
  (** [ImageFont.truetype(path, size)] and [ImageFont.load_default()] *)
  truetype : string -> nat -> result font;
  load_default : result font;
  (** [Image.new('L', (size, size), 0)] *)
  new_image : nat -> image;
  (** [draw.textbbox((0, 0), letter, font=font)] *)
  textbbox : image -> string -> font -> result (Z * Z * Z * Z);
  (** [draw.text((x, y), letter, fill=255, font=font)] *)
  draw_text : image -> Z * Z -> string -> font -> result image;
  (** [np.array(image)] *)
  pixels : image -> list (list Z);
  (** [measure.find_contours(mask, level)] *)
  find_contours : list (list bool) -> R -> result (list (list (R * R)));
  (** [trimesh.Trimesh(vertices=..., faces=...)], [fix_normals],
      [trimesh.repair.fill_holes], [len(mesh.vertices)] and the bytes
      [export] writes *)
  Trimesh : arrays R -> result trimesh;
  fix_normals : trimesh -> result trimesh;
  fill_holes : trimesh -> result trimesh;
  n_vertices : trimesh -> nat;
  stl_bytes : trimesh -> result FS.content
}.

(** ** Console output and the world *)

(** What the script prints, by [print] call of the modelled lines (the
    header of lines 201-202 is one event; numbers are kept as values, not
    as formatted text), and [traceback.print_exc()]. *)
Inductive event (R : Type) :=
| PrintProcessing (letter : string)
| PrintCreating (variant_name : string) (thickness : R)
| PrintWarning (letter : string)
| PrintFailed
| PrintOk (file_size n_vertices : nat)
| PrintError (e : exn)
| PrintTraceback (e : exn).
Arguments PrintProcessing {R} letter.
Arguments PrintCreating {R} variant_name thickness.
Arguments PrintWarning {R} letter.
Arguments PrintFailed {R}.
Arguments PrintOk {R} file_size n_vertices.
Arguments PrintError {R} e.
Arguments PrintTraceback {R} e.

Record world (R : Type) := mk_world {
  console : list (event R);
  disk : FS.state
}.
Arguments mk_world {R} _ _.
Arguments console {R} _.
Arguments disk {R} _.

(** Computations that print, touch the disk, and return or raise. *)
Definition M (R A : Type) : Type := world R -> result A * world R.

Definition ret {R A} (a : A) : M R A := fun w => (Ok a, w).

Definition bind {R A B} (m : M R A) (k : A -> M R B) : M R B :=
  fun w =>
    match m w with
    | (Ok a, w') => k a w'
    | (Raise e, w') => (Raise e, w')
    end.

(** A pure collaborator call. *)
Definition call {R A} (r : result A) : M R A := fun w => (r, w).

(** [try: body  except Exception as e: handler(e)] *)
Definition try_except {R A} (body : M R A) (handler : exn -> M R A) : M R A :=
  fun w =>
    match body w with
    | (Ok a, w') => (Ok a, w')
    | (Raise e, w') => handler e w'
    end.

Definition print {R} (ev : event R) : M R unit :=
  fun w => (Ok tt, mk_world (console w ++ [ev]) (disk w)).

(** A file-system operation. *)
Definition on_disk {R A} (op : FS.state -> result A * FS.state) : M R A :=
  fun w => let (r, fs) := op (disk w) in (r, mk_world (console w) fs).

Declare Scope py_scope.
Delimit Scope py_scope with py.
Notation "x <- m ;; k" := (bind m (fun x => k))
  (at level 100, m at next level, right associativity) : py_scope.
Notation "m ;; k" := (bind m (fun _ => k))
  (at level 100, right associativity) : py_scope.

(** [for x in l: body(x)] *)
Fixpoint for_each {R A} (l : list A) (body : A -> M R unit) : M R unit :=
  match l with
  | [] => ret tt
  | x :: l' => bind (body x) (fun _ => for_each l' body)
  end.

(** ** The generator *)

Record specs (R : Type) := mk_specs {
  thickness : R;
  description : string
}.
Arguments mk_specs {R} _ _.
Arguments thickness {R} _.
Arguments description {R} _.

Record generator := mk_generator {
  output_dir : FS.path;
  font_size : nat
}.

Definition CENTRIA_LETTERS : list string :=
  ["C"; "E"; "N"; "T"; "R"; "I"; "A"]%string.

Definition FULL_ALPHABET : list string :=
  ["A"; "B"; "C"; "D"; "E"; "F"; "G"; "H"; "I"; "J"; "K"; "L"; "M";
   "N"; "O"; "P"; "Q"; "R"; "S"; "T"; "U"; "V"; "W"; "X"; "Y"; "Z"]%string.

Definition font_options : list string :=
  ["arial.ttf"; "Arial Bold.ttf"; "arialbd.ttf";
   "C:/Windows/Fonts/arialbd.ttf"; "C:/Windows/Fonts/arial.ttf"]%string.

Definition default_output_dir : string := "Centria_3D_Models/Letters_Library".
Definition default_font_size : nat := 200.

Section Generator.
Context {R : Type} {SR : Scalar R} {L : Libs R}.
Local Open Scope py_scope.

(** A decimal literal with one digit after the point. *)
Definition tenths (t : Z) : R := fdiv (of_Z t) (of_Z 10).

(** The variant table, in the dictionary's insertion order. *)
Definition VARIANTS : list (string * specs R) :=
  [("pin"%string, mk_specs (tenths 35) "Pin with mounting post");
   ("magnet"%string, mk_specs (tenths 45) "Magnet with recess");
   ("keyring"%string, mk_specs (tenths 55) "Keyring with reinforced loop");
   ("cake_mould"%string, mk_specs (tenths 100) "Cake mould (inverted relief)")].

(** Lines 46-53. *)
Definition __init__ (output_dir : string) (font_size : nat)
  : M R generator :=
  let od := FS.FilePath output_dir in
  on_disk (FS.mkdir true true od) ;;
  for_each (map fst VARIANTS)
    (fun variant => on_disk (FS.mkdir false true (FS.join od variant))) ;;
  ret (mk_generator od font_size).

(** Lines 116-135. *)
Definition _extract_contour (mask : list (list bool))
  : result (list (R * R)) :=
  match find_contours mask (fdiv (of_Z 1) (of_Z 2)) with
  | Raise e => Raise e
  | Ok [] => Ok []
  | Ok (c :: contours) =>
      let main_contour := max_by_len c contours in
      Ok (simplify main_contour)
  end.

(** Lines 137-196. *)
Definition _extrude_contour (contour_points : list (R * R)) (height : R)
  : result trimesh :=
  match extrude_arrays contour_points height with
  | Raise e => Raise e
  | Ok a =>
      match Trimesh a with
      | Raise e => Raise e
      | Ok mesh_obj =>
          match fix_normals mesh_obj with
          | Raise e => Raise e
          | Ok mesh_obj => fill_holes mesh_obj
          end
      end
  end.

(** Lines 64-85: the first font that loads, else the default one. *)
Fixpoint first_font (options : list string) (size : nat) : result font :=
  match options with
  | [] => load_default
  | font_path :: options' =>
      match truetype font_path size with
      | Ok f => Ok f
      | Raise _ => first_font options' size
      end
  end.

(** Lines 59-102: the thresholded bitmap of a letter. *)
Definition render_mask (self : generator) (letter : string)
  : result (list (list bool)) :=
  let img_size := 300%nat in
  let image := new_image img_size in
  match first_font font_options (font_size self) with
  | Raise e => Raise e
  | Ok font =>
      match textbbox image letter font with
      | Raise e => Raise e
      | Ok (b0, b1, b2, b3) =>
          let text_width := (b2 - b0)%Z in
          let text_height := (b3 - b1)%Z in
          let x := ((Z.of_nat img_size - text_width) / 2 - b0)%Z in
          let y := ((Z.of_nat img_size - text_height) / 2 - b1)%Z in
          match draw_text image (x, y) letter font with
          | Raise e => Raise e
          | Ok image =>
              Ok (map (map (fun v => (128 <? v)%Z)) (pixels image))
          end
      end
  end.

(** Lines 55-114; [None] is Python's [None]. *)
Definition create_letter_mesh (self : generator) (letter : string)
    (thickness : R) : M R (option trimesh) :=
  mask <- call (render_mask self letter) ;;
  contour_points <- call (_extract_contour mask) ;;
  if length contour_points <? 3 then
    print (PrintWarning letter) ;;
    ret None
  else
    mesh_obj <- call (_extrude_contour contour_points thickness) ;;
    ret (Some mesh_obj).

(** Line 216: [f"Letter_{letter}_{variant_name}.stl"] and the path. *)
Definition letter_filename (letter variant_name : string) : string :=
  String.append "Letter_"
    (String.append letter
       (String.append "_" (String.append variant_name ".stl"))).

Definition output_file (self : generator) (letter variant_name : string)
  : FS.path :=
  FS.join (FS.join (output_dir self) variant_name)
    (letter_filename letter variant_name).

(** [letter_mesh.export(str(output_file))], as the script relies on it:
    the mesh is serialised and the bytes become the file at the path. *)
Definition export (letter_mesh : trimesh) (p : FS.path) : M R unit :=
  bytes <- call (stl_bytes letter_mesh) ;;
  on_disk (FS.write_file p bytes).

(** Lines 208-224, the body of the [try]. *)
Definition variant_try (self : generator) (letter variant_name : string)
    (sp : specs R) : M R unit :=
  letter_mesh <- create_letter_mesh self letter (thickness sp) ;;
  match letter_mesh with
  | None => print PrintFailed
  | Some letter_mesh =>
      let output_file := output_file self letter variant_name in
      export letter_mesh output_file ;;
      file_size <- on_disk (fun fs => (FS.stat_size output_file fs, fs)) ;;
      print (PrintOk file_size (n_vertices letter_mesh))
  end.

(** Lines 205-229, one iteration of the loop over the variants. *)
Definition variant_iteration (self : generator) (letter : string)
    (v : string * specs R) : M R unit :=
  print (PrintCreating v.1 (thickness v.2)) ;;
  try_except (variant_try self letter v.1 v.2)
    (fun e => print (PrintError e) ;; print (PrintTraceback e)).

(** Lines 198-229. *)
Definition generate_letter_variants (self : generator) (letter : string)
  : M R unit :=
  print (PrintProcessing letter) ;;
  for_each VARIANTS (variant_iteration self letter).

(** The loop of [generate_centria_letters] and [generate_full_alphabet]
    (lines 241-242 and 256-257). *)
Definition generate_letters (self : generator) (letters : list string)
  : M R unit :=
  for_each letters (generate_letter_variants self).

(** The value [create_letter_mesh] returns, as a function of its
    arguments (lines 59-114 without the printing). *)
Definition letter_mesh_value (self : generator) (letter : string)
    (thickness : R) : result (option trimesh) :=
  match render_mask self letter with
  | Raise e => Raise e
  | Ok mask =>
      match _extract_contour mask with
      | Raise e => Raise e
      | Ok contour_points =>
          if length contour_points <? 3 then Ok None
          else match _extrude_contour contour_points thickness with
               | Raise e => Raise e
               | Ok mesh_obj => Ok (Some mesh_obj)
               end
      end
  end.

(** The file that one iteration of the variant loop leaves on disk, if
    any, given the directories present: its path string and its bytes. *)
Definition variant_write (self : generator) (letter : string)
    (v : string * specs R) (ds : gset string)
  : option (string * FS.content) :=
  match letter_mesh_value self letter (thickness v.2) with
  | Ok (Some letter_mesh) =>
      match stl_bytes letter_mesh with
      | Ok bytes =>
          let p := output_file self letter v.1 in
          if FS.dir_present ds p then None
          else if FS.dir_present ds (FS.parent p) then Some (FS.str p, bytes)
          else None
      | Raise _ => None
      end
  | _ => None
  end.

Definition apply_write (o : option (string * FS.content))
    (files : gmap string FS.content) : gmap string FS.content :=
  match o with
  | Some (p, bytes) => <[p := bytes]> files
  | None => files
  end.

Definition is_creating (ev : event R) : bool :=
  match ev with
  | PrintCreating _ _ => true
  | _ => false
  end.
End Generator.

(** ** Stand-in collaborators for closed examples *)

Module Demo.
(** A three-point outline, as (row, column) pairs. *)
Definition outline {R : Type} {SR : Scalar R} : list (R * R) :=
  [(of_Z 0, of_Z 0); (of_Z 0, of_Z 8); (of_Z 6, of_Z 1)].

(** No TrueType font resolves and the built-in one is used; an image is
    one pixel, inked by every letter but the space; contour tracing
    finds [outline] around any ink; the mesh object is the arrays it
    was built from; the exported file has one byte per face. *)
Definition libs {R : Type} {SR : Scalar R} : Libs R := {|
  font := unit;
  image := bool;
  trimesh := arrays R;
  truetype := fun _ _ => Raise (LibraryError "cannot open resource");
  load_default := Ok tt;
  new_image := fun _ => false;
  textbbox := fun _ _ _ => Ok (0, 0, 100, 120)%Z;
  draw_text := fun _ _ letter _ => Ok (negb (String.eqb letter " "));
  pixels := fun img => [[if img then 255 else 0]]%Z;
  find_contours := fun mask _ =>
    Ok (if existsb (existsb id) mask then [outline] else []);
  Trimesh := fun a => Ok a;
  fix_normals := fun m => Ok m;
  fill_holes := fun m => Ok m;
  n_vertices := fun m => length (vertices m);
  stl_bytes := fun m => Ok (repeat Byte.x00 (length (faces m)))
|}.

(** The same, with an exporter that fails on every mesh. *)
Definition libs_export_fails {R : Type} {SR : Scalar R} : Libs R := {|
  font := unit;
  image := bool;
  trimesh := arrays R;
  truetype := fun _ _ => Raise (LibraryError "cannot open resource");
  load_default := Ok tt;
  new_image := fun _ => false;
  textbbox := fun _ _ _ => Ok (0, 0, 100, 120)%Z;
  draw_text := fun _ _ letter _ => Ok (negb (String.eqb letter " "));
  pixels := fun img => [[if img then 255 else 0]]%Z;
  find_contours := fun mask _ =>
    Ok (if existsb (existsb id) mask then [outline] else []);
  Trimesh := fun a => Ok a;
  fix_normals := fun m => Ok m;
  fill_holes := fun m => Ok m;
  n_vertices := fun m => length (vertices m);
  stl_bytes := fun _ => Raise (LibraryError "export failed")
|}.

Definition start {R : Type} : world R := mk_world [] FS.empty.

(** The outline and the pin thickness as binary64 values. *)
Definition outline64 : list (spec_float * spec_float) := outline.
Definition pin64 : spec_float := fdiv (of_Z 35) (of_Z 10).

(** Three collinear points 77 rows apart, as binary64 and as rationals. *)
Definition collinear {R : Type} {SR : Scalar R} : list (R * R) :=
  [(of_Z 0, of_Z 0); (of_Z 77, of_Z 0); (of_Z 154, of_Z 0)].
Definition collinear64 : list (spec_float * spec_float) := collinear.
Definition outlineQ : list (Qc * Qc) := outline.

(** The collaborators at binary64, a generator on the default output
    directory, the first variant, the bitmaps of an inked and of a blank
    letter, and a disk holding one unrelated file. *)
Definition libs64 : Libs spec_float := libs.
Definition fails64 : Libs spec_float := libs_export_fails.
Definition gen : generator :=
  mk_generator (FS.FilePath default_output_dir) default_font_size.
Definition pin64_variant : string * specs spec_float :=
  ("pin"%string, mk_specs pin64 "Pin with mounting post").
Definition inked : list (list bool) := [[true]].
Definition blank : list (list bool) := [[false]].
Definition ready64 : world spec_float :=
  mk_world []
    (FS.mk_state
       {["Centria_3D_Models"%string;
         "Centria_3D_Models/Letters_Library"%string;
         "Centria_3D_Models/Letters_Library/pin"%string;
         "Centria_3D_Models/Letters_Library/magnet"%string;
         "Centria_3D_Models/Letters_Library/keyring"%string;
         "Centria_3D_Models/Letters_Library/cake_mould"%string]}
       {["notes.txt"%string := [Byte.x00]]}).
End Demo.

(** ** The surface of the solid *)

(** The sides of a triangle, in the direction its vertices are listed. *)
Definition face_edges (f : face) : list (nat * nat) :=
  [(f.1.1, f.1.2); (f.1.2, f.2); (f.2, f.1.1)].

Definition directed_edges (fs : list face) : list (nat * nat) :=
  flat_map face_edges fs.

(** The faces that lines 169-184 append, by the statement that appends
    them. *)
Inductive face_kind (n : nat) : face -> Prop :=
| wall_lower i : i < n - 1 -> face_kind n (i, i + 1, i + 1 + n)
| wall_upper i : i < n - 1 -> face_kind n (i, i + 1 + n, i + n)
| close_lower : face_kind n (n - 1, 0, n)
| close_upper : face_kind n (n - 1, n, 2 * n - 1)
| bottom_fan i : 1 <= i < n - 1 -> face_kind n (0, i + 1, i)
| top_fan i : 1 <= i < n - 1 -> face_kind n (n, n + i, n + i + 1).

(** The sides of those faces, three per kind of face. *)
Definition is_edge (n a b : nat) : Prop :=
  (b = a + 1 /\ a + 1 < n) \/
  (1 <= a /\ a < n /\ b = a + n) \/
  (a = b + 1 + n /\ b < n - 1) \/
  (a < n - 1 /\ b = a + 1 + n) \/
  (a = b + 1 /\ n <= b /\ b < 2 * n - 1) \/
  (a = b + n /\ b < n - 1) \/
  (a = n - 1 /\ b = 0) \/ (a = 0 /\ b = n) \/ (a = n /\ b = n - 1) \/
  (a = n - 1 /\ b = n) \/ (a = n /\ b = 2 * n - 1) \/
  (a = 2 * n - 1 /\ b = n - 1) \/
  (a = 0 /\ 2 <= b /\ b <= n - 1) \/
  (a = b + 1 /\ 1 <= b /\ a <= n - 1) \/
  (b = 0 /\ 1 <= a /\ a <= n - 2) \/
  (a = n /\ n + 1 <= b /\ b <= 2 * n - 2) \/
  (b = a + 1 /\ n + 1 <= a /\ a <= 2 * n - 2) \/
  (b = n /\ n + 2 <= a /\ a <= 2 * n - 1).

(** ** The rasteriser's arithmetic *)

(** Lines 89-93: where the glyph is drawn, from the image size and the
    bounding box measured at the origin. *)
Definition glyph_origin (img_size : Z) (bbox : Z * Z * Z * Z) : Z * Z :=
  let '(b0, b1, b2, b3) := bbox in
  let text_width := (b2 - b0)%Z in
  let text_height := (b3 - b1)%Z in
  (((img_size - text_width) / 2 - b0)%Z,
   ((img_size - text_height) / 2 - b1)%Z).

(** Line 102: [img_array > 128]. *)
Definition threshold (img_array : list (list Z)) : list (list bool) :=
  map (map (fun v => (128 <? v)%Z)) img_array.

Section Fonts.
Context {R : Type} {L : Libs R}.

(** [ImageFont.truetype(font_path, size)] raises. *)
Definition font_fails (size : nat) (font_path : string) : Prop :=
  exists e, truetype font_path size = Raise e.
End Fonts.

(** ** Directory listings (the [glob] and [sorted] collaborators) *)

Module Listing.
(** [s] without its prefix [pre], if it starts with it. *)
Fixpoint strip_prefix (pre s : string) : option string :=
  match pre with
  | EmptyString => Some s
  | String a pre' =>
      match s with
      | EmptyString => None
      | String b s' => if Ascii.eqb a b then strip_prefix pre' s' else None
      end
  end.

(** Whether [s] ends in [suffix]. *)
Fixpoint ends_with (suffix s : string) : bool :=
  String.eqb s suffix ||
  match s with
  | EmptyString => false
  | String _ s' => ends_with suffix s'
  end.

(** What the path strings of the entries of directory [d] start with. *)
Definition dir_prefix (d : FS.path) : string :=
  match FS.parts d with
  | [] => if FS.anchored d then "/" else ""
  | _ => String.append (FS.str d) "/"
  end.

(** The name of the entry with path string [k] if it lies directly in
    [d]. *)
Definition child_name (d : FS.path) (k : string) : option string :=
  match strip_prefix (dir_prefix d) k with
  | Some name =>
      if String.eqb name "" || FS.has_slash name then None else Some name
  | None => None
  end.

(** Every entry of the disk: a regular file with its [st_size], a
    directory with none, since the size the file system reports for a
    directory is not part of [FS]. *)
Definition entries (fs : FS.state) : list (string * option nat) :=
  map (fun kc => (kc.1, Some (length kc.2))) (map_to_list (FS.files fs))
    ++ map (fun k => (k, None)) (elements (FS.dirs fs)).

(** [d.glob('*.stl')]: the entries directly in [d] whose name ends in
    [.stl], regular files and directories alike, by name; nothing when
    [d] is not a directory. *)
Definition glob_stl (d : FS.path) (fs : FS.state)
  : list (string * option nat) :=
  if FS.is_dir fs d then
    omap (fun ks =>
            match child_name d ks.1 with
            | Some name =>
                if ends_with ".stl" name then Some (name, ks.2) else None
            | None => None
            end) (entries fs)
  else [].

(** [sorted]: by name, in the order of the character codes. *)
Fixpoint insert_by_name (x : string * option nat)
    (l : list (string * option nat)) : list (string * option nat) :=
  match l with
  | [] => [x]
  | y :: l' =>
      if String.leb x.1 y.1 then x :: y :: l' else y :: insert_by_name x l'
  end.

Definition sorted (l : list (string * option nat))
  : list (string * option nat) :=
  foldr insert_by_name [] l.

(** The order of the listing. *)
Definition by_name (x y : string * option nat) : Prop :=
  String.leb x.1 y.1 = true.
End Listing.

(** ** The entry points *)

(** What the entry points print around the loop over the letters, by
    block of [print] calls; the output directory is printed as the path
    it is, not made absolute.  Line 278 prints a [FileLine] for a regular
    file and a [DirLine] for a directory that matches the pattern: the
    size printed for a directory is the one the file system reports, which
    the model does not have. *)
Inductive report (R : Type) :=
| Progress (ev : event R)
| Banner (title : string)
| SummaryHeader (output_dir : FS.path) (letters : string) (total : nat)
| VariantHeader (variant_name : string) (count : nat)
| FileLine (name : string) (size : nat)
| DirLine (name : string)
| MissingDependencies
| Tip.
Arguments Progress {R} ev.
Arguments Banner {R} title.
Arguments SummaryHeader {R} output_dir letters total.
Arguments VariantHeader {R} variant_name count.
Arguments FileLine {R} name size.
Arguments DirLine {R} name.
Arguments MissingDependencies {R}.
Arguments Tip {R}.

Record session (R : Type) := mk_session {
  printed : list (report R);
  on_disk_now : FS.state
}.
Arguments mk_session {R} _ _.
Arguments printed {R} _.
Arguments on_disk_now {R} _.

(** How the imports of lines 289-290 end. *)
Inductive import_outcome :=
| Imported
| RaisedImportError
| RaisedOther (e : exn).

Section EntryPoints.
Context {R : Type} {SR : Scalar R} {L : Libs R}.

Definition say (r : list (report R)) (s : session R) : session R :=
  mk_session (printed s ++ r) (on_disk_now s).

(** A computation of the generator inside a session: what it prints is
    appended as progress lines. *)
Definition run {A} (m : M R A) (s : session R) : result A * session R :=
  let '(r, w) := m (mk_world [] (on_disk_now s)) in
  (r, mk_session (printed s ++ map Progress (console w)) (disk w)).

(** Lines 277-278, for one entry. *)
Definition listing_line (f : string * option nat) : report R :=
  match f.2 with
  | Some size => FileLine f.1 size
  | None => DirLine f.1
  end.

(** Lines 273-278, for one variant. *)
Definition variant_listing (self : generator) (variant_name : string)
    (fs : FS.state) : list (report R) :=
  let variant_dir := FS.join (output_dir self) variant_name in
  let stl_files := Listing.sorted (Listing.glob_stl variant_dir fs) in
  VariantHeader variant_name (length stl_files) :: map listing_line stl_files.

(** Lines 261-278. *)
Definition _print_summary (self : generator) (letters : list string)
    (s : session R) : session R :=
  say (SummaryHeader (output_dir self) (String.concat ", " letters)
         (length letters * length (VARIANTS (R:=R)))
       :: flat_map (fun variant_name =>
                      variant_listing self variant_name (on_disk_now s))
            (map fst (VARIANTS (R:=R)))) s.

(** Lines 231-244; the banner of lines 233-239 is one report. *)
Definition generate_centria_letters (self : generator) (s : session R)
  : result unit * session R :=
  match run (generate_letters self CENTRIA_LETTERS)
          (say [Banner "CENTRIA LETTER LIBRARY GENERATOR"] s) with
  | (Ok _, s') => (Ok tt, _print_summary self CENTRIA_LETTERS s')
  | (Raise e, s') => (Raise e, s')
  end.

(** Lines 246-259. *)
Definition generate_full_alphabet (self : generator) (s : session R)
  : result unit * session R :=
  match run (generate_letters self FULL_ALPHABET)
          (say [Banner "FULL ALPHABET LIBRARY GENERATOR"] s) with
  | (Ok _, s') => (Ok tt, _print_summary self FULL_ALPHABET s')
  | (Raise e, s') => (Raise e, s')
  end.

(** What the two functions have in common: a banner, the loop over the
    letters, the summary. *)
Definition batch (title : string) (letters : list string)
    (self : generator) (s : session R) : result unit * session R :=
  match run (generate_letters self letters) (say [Banner title] s) with
  | (Ok _, s') => (Ok tt, _print_summary self letters s')
  | (Raise e, s') => (Raise e, s')
  end.

(** Lines 281-309; [argv] is [sys.argv]. *)
Definition main (imports : import_outcome) (argv : list string)
    (s : session R) : result unit * session R :=
  let s := say [Banner "Centria Letter Library Generator"] s in
  match imports with
  | RaisedImportError => (Ok tt, say [MissingDependencies] s)
  | RaisedOther e => (Raise e, s)
  | Imported =>
      if (1 <? length argv) && bool_decide (argv !! 1 = Some "--full"%string)
      then
        match run (__init__ default_output_dir default_font_size) s with
        | (Ok generator, s) => generate_full_alphabet generator s
        | (Raise e, s) => (Raise e, s)
        end
      else
        match run (__init__ default_output_dir default_font_size) s with
        | (Ok generator, s) =>
            match generate_centria_letters generator s with
            | (Ok _, s) => (Ok tt, say [Tip] s)
            | (Raise e, s) => (Raise e, s)
            end
        | (Raise e, s) => (Raise e, s)
        end
  end.

(** The lines that announce a letter or a (letter, variant) pair. *)
Definition is_attempt (ev : event R) : bool :=
  match ev with
  | PrintProcessing _ | PrintCreating _ _ => true
  | _ => false
  end.

Definition attempts (letters : list string) : list (event R) :=
  flat_map (fun letter =>
              PrintProcessing letter
                :: map (fun v => PrintCreating v.1 (thickness v.2)) VARIANTS)
    letters.
End EntryPoints.

(** ** More stand-in collaborators *)

Module Sample.
(** A two-point stroke, shorter than [Demo.outline]. *)
Definition stroke {R : Type} {SR : Scalar R} : list (R * R) :=
  [(of_Z 2, of_Z 2); (of_Z 2, of_Z 5)].

(** As [Demo.libs], with one TrueType font installed (a font is the name
    of the resource it was loaded from), a glyph box of odd width, and a
    tracer that finds a short stroke and then the outline twice, once in
    each direction. *)
Definition libs {R : Type} {SR : Scalar R} : Libs R := {|
  font := string;
  image := bool;
  trimesh := arrays R;
  truetype := fun font_path _ =>
    if String.eqb font_path "arialbd.ttf" then Ok font_path
    else Raise (LibraryError "cannot open resource");
  load_default := Ok "default"%string;
  new_image := fun _ => false;
  textbbox := fun _ _ _ => Ok (7, 43, 140, 186)%Z;
  draw_text := fun _ _ letter _ => Ok (negb (String.eqb letter " "));
  pixels := fun img => [[if img then 255 else 0]]%Z;
  find_contours := fun mask _ =>
    Ok (if existsb (existsb id) mask
        then [stroke; Demo.outline; rev Demo.outline] else []);
  Trimesh := fun a => Ok a;
  fix_normals := fun m => Ok m;
  fill_holes := fun m => Ok m;
  n_vertices := fun m => length (vertices m);
  stl_bytes := fun m => Ok (repeat Byte.x00 (length (faces m)))
|}.

Definition libs64 : Libs spec_float := libs.
Definition stroke64 : list (spec_float * spec_float) := stroke.

(** A disk that holds one unrelated file and no directory. *)
Definition unrelated64 : world spec_float :=
  mk_world [] (FS.mk_state ∅ {["notes.txt"%string := [Byte.x00]]}).

(** Sessions that start on a disk where a regular file has the name of
    the output directory, on a disk where an earlier run left another
    letter and a directory named like a model file behind, on the disk of
    [Demo.ready64], and on an empty disk;
    the command line of the two modes. *)
Definition blocked64 : session spec_float :=
  mk_session []
    (FS.mk_state {["Centria_3D_Models"%string]}
       {["Centria_3D_Models/Letters_Library"%string := [Byte.x00]]}).

Definition earlier64 : session spec_float :=
  mk_session []
    (FS.mk_state
       {["Centria_3D_Models"%string;
         "Centria_3D_Models/Letters_Library"%string;
         "Centria_3D_Models/Letters_Library/pin"%string;
         "Centria_3D_Models/Letters_Library/pin/previous.stl"%string]}
       {["Centria_3D_Models/Letters_Library/pin/Letter_Z_pin.stl"%string
           := [Byte.x00; Byte.x00];
         "Centria_3D_Models/Letters_Library/pin/readme.txt"%string
           := [Byte.x00]]}).

Definition ready_session64 : session spec_float :=
  mk_session [] (disk Demo.ready64).

Definition fresh64 : session spec_float := mk_session [] FS.empty.

Definition argv_default : list string := ["generate_letter_library.py"]%string.
Definition argv_full : list string :=
  ["generate_letter_library.py"; "--full"]%string.

(** A straight line of [k] points, and a closed contour of five points
    whose last point repeats the first, as the contours of
    [find_contours] do. *)
Definition line64 (k : nat) : list (spec_float * spec_float) :=
  map (fun i => (B64.of_Z (Z.of_nat i), B64.of_Z 0)) (seq 0 k).

Definition closed64 : list (spec_float * spec_float) :=
  [(B64.of_Z 0, B64.of_Z 0); (B64.of_Z 0, B64.of_Z 8);
   (B64.of_Z 6, B64.of_Z 8); (B64.of_Z 6, B64.of_Z 0);
   (B64.of_Z 0, B64.of_Z 0)].

(** As [Demo.libs64], with a tracer that finds the contours [cs] around
    any ink. *)
Definition tracing64 (cs : list (list (spec_float * spec_float)))
  : Libs spec_float := {|
  font := unit;
  image := bool;
  trimesh := arrays spec_float;
  truetype := fun _ _ => Raise (LibraryError "cannot open resource");
  load_default := Ok tt;
  new_image := fun _ => false;
  textbbox := fun _ _ _ => Ok (0, 0, 100, 120)%Z;
  draw_text := fun _ _ letter _ => Ok (negb (String.eqb letter " "));
  pixels := fun img => [[if img then 255 else 0]]%Z;
  find_contours := fun mask _ =>
    Ok (if existsb (existsb id) mask then cs else []);
  Trimesh := fun a => Ok a;
  fix_normals := fun m => Ok m;
  fill_holes := fun m => Ok m;
  n_vertices := fun m => length (vertices m);
  stl_bytes := fun m => Ok (repeat Byte.x00 (length (faces m)))
|}.

(** A mesh constructor that merges coincident vertices, as
    [trimesh.Trimesh] does with its default [process=True]: rows that are
    equal coordinate by coordinate become one vertex, the first of them,
    and the faces are renumbered. *)
Definition same_row (u v : spec_float * spec_float * spec_float) : bool :=
  SFeqb u.1.1 v.1.1 && SFeqb u.1.2 v.1.2 && SFeqb u.2 v.2.

Fixpoint merge_rows (rows : list (spec_float * spec_float * spec_float))
  : list (spec_float * spec_float * spec_float) :=
  match rows with
  | [] => []
  | r :: rows' =>
      r :: List.filter (fun r' => negb (same_row r r')) (merge_rows rows')
  end.

Fixpoint index_of (r : spec_float * spec_float * spec_float)
    (rows : list (spec_float * spec_float * spec_float)) : nat :=
  match rows with
  | [] => 0
  | r' :: rows' => if same_row r' r then 0 else S (index_of r rows')
  end.

Definition merge_vertices (a : arrays spec_float) : arrays spec_float :=
  let rows := merge_rows (vertices a) in
  let renumber i :=
    match vertices a !! i with
    | Some r => index_of r rows
    | None => i
    end in
  mk_arrays rows
    (map (fun f => (renumber f.1.1, renumber f.1.2, renumber f.2)) (faces a)).

Definition merging64 : Libs spec_float := {|
  font := unit;
  image := bool;
  trimesh := arrays spec_float;
  truetype := fun _ _ => Raise (LibraryError "cannot open resource");
  load_default := Ok tt;
  new_image := fun _ => false;
  textbbox := fun _ _ _ => Ok (0, 0, 100, 120)%Z;
  draw_text := fun _ _ letter _ => Ok (negb (String.eqb letter " "));
  pixels := fun img => [[if img then 255 else 0]]%Z;
  find_contours := fun mask _ =>
    Ok (if existsb (existsb id) mask then [closed64] else []);
  Trimesh := fun a => Ok (merge_vertices a);
  fix_normals := fun m => Ok m;
  fill_holes := fun m => Ok m;
  n_vertices := fun m => length (vertices m);
  stl_bytes := fun m => Ok (repeat Byte.x00 (length (faces m)))
|}.

(** Three collinear points whose mean is not a binary64 number. *)
Definition skew64 : list (spec_float * spec_float) :=
  [(B64.of_Z 0, B64.of_Z 0); (B64.of_Z 1, B64.of_Z 0);
   (B64.of_Z 51, B64.of_Z 0)].

(** The second variant of the table at binary64. *)
Definition magnet64_variant : string * specs spec_float :=
  ("magnet"%string, mk_specs (fdiv (of_Z 45) (of_Z 10)) "Magnet with recess").

(** The mesh of [Demo.outline64] for the pin variant. *)
Definition pin_mesh64 : arrays spec_float :=
  mk_arrays
    (map (fun p => (p.1, p.2, B64.of_Z 0))
       [(B64.of_Z (-16), B64.of_Z 24);
        (B64.of_Z (-16), B64.of_Z (-40));
        (B64.of_Z 32, B64.of_Z 16)]
     ++ map (fun p => (p.1, p.2, Demo.pin64))
       [(B64.of_Z (-16), B64.of_Z 24);
        (B64.of_Z (-16), B64.of_Z (-40));
        (B64.of_Z 32, B64.of_Z 16)])
    (build_faces 3).
End Sample.

(** * Properties *)

(** ** Downsampling *)

Section SlicingFacts.
Context {A : Type}.
Implicit Types l : list A.

Lemma every_nth_length step skip l :
  1 <= step -> skip <= step - 1 ->
  length (every_nth step skip l) = (length l + step - 1 - skip) / step.
Proof.
  intros Hstep. revert skip.
  induction l as [|x l IH]; intros skip Hskip; cbn [every_nth length].
  - symmetry. apply Nat.div_small. lia.
  - destruct skip as [|k].
    + cbn [length]. rewrite IH by lia.
      replace (length l + step - 1 - (step - 1)) with (length l) by lia.
      replace (S (length l) + step - 1 - 0) with (length l + 1 * step) by lia.
      rewrite Nat.div_add by lia. lia.
    + rewrite IH by lia. f_equal. lia.
Qed.

Lemma every_nth_lookup step skip l k :
  1 <= step -> skip <= step - 1 ->
  every_nth step skip l !! k = l !! (skip + k * step).
Proof.
  intros Hstep. revert skip k.
  induction l as [|x l IH]; intros skip k Hskip; cbn [every_nth].
  - by rewrite !lookup_nil.
  - destruct skip as [|s].
    + destruct k as [|k]; [done|]. cbn [lookup list_lookup].
      rewrite IH by lia.
      replace (0 + S k * step) with (S (step - 1 + k * step)) by lia.
      done.
    + rewrite IH by lia. done.
Qed.

Lemma contour_step_pos n : 1 <= contour_step n.
Proof. unfold contour_step. lia. Qed.

(** The simplified contour has ceil(len / step) points. *)
Lemma simplify_length l :
  length (simplify l) =
  (length l + contour_step (length l) - 1) / contour_step (length l).
Proof.
  unfold simplify, slice_step.
  pose proof (contour_step_pos (length l)).
  rewrite every_nth_length by lia. f_equal. lia.
Qed.

Lemma simplify_lookup l k :
  simplify l !! k = l !! (k * contour_step (length l)).
Proof.
  unfold simplify, slice_step.
  pose proof (contour_step_pos (length l)).
  by rewrite every_nth_lookup by lia.
Qed.

Lemma simplify_short l : length l < 200 -> simplify l = l.
Proof.
  intros Hl. apply list_eq. intros k. rewrite simplify_lookup.
  assert (contour_step (length l) = 1) as ->; [|by rewrite Nat.mul_1_r].
  unfold contour_step.
  assert (length l / 100 < 2) by (apply Nat.Div0.div_lt_upper_bound; lia).
  lia.
Qed.

Lemma simplify_length_upper l : length (simplify l) <= 199.
Proof.
  rewrite simplify_length. unfold contour_step.
  pose proof (Nat.div_mod_eq (length l) 100) as Hdm.
  pose proof (Nat.mod_upper_bound (length l) 100 ltac:(lia)) as Hm.
  set (q := length l / 100) in *. set (r := length l mod 100) in *.
  destruct (decide (q = 0)) as [->|Hq].
  - rewrite Nat.max_l by lia. rewrite Nat.div_1_r. lia.
  - rewrite Nat.max_r by lia.
    apply Nat.lt_succ_r, Nat.Div0.div_lt_upper_bound. nia.
Qed.

Lemma simplify_length_lower l :
  100 <= length l -> 100 <= length (simplify l).
Proof.
  intros Hl. rewrite simplify_length. unfold contour_step.
  pose proof (Nat.div_mod_eq (length l) 100) as Hdm.
  pose proof (Nat.mod_upper_bound (length l) 100 ltac:(lia)) as Hm.
  set (q := length l / 100) in *. set (r := length l mod 100) in *.
  assert (1 <= q) by nia.
  rewrite Nat.max_r by lia.
  apply Nat.div_le_lower_bound; nia.
Qed.

(** [max(contours, key=len)] returns one of the candidates, and none is
    longer. *)
Lemma max_by_len_elem best (rest : list (list A)) :
  max_by_len best rest ∈ best :: rest.
Proof.
  revert best. induction rest as [|c rest IH]; intros best; simpl.
  - apply list_elem_of_here.
  - destruct (length best <? length c).
    + apply list_elem_of_further, IH.
    + destruct (elem_of_cons rest (max_by_len best rest) best) as [Hin _].
      destruct (Hin (IH best)) as [->|Hr].
      * apply list_elem_of_here.
      * by do 2 apply list_elem_of_further.
Qed.

Lemma max_by_len_ge_best best (rest : list (list A)) :
  length best <= length (max_by_len best rest).
Proof.
  revert best. induction rest as [|c rest IH]; intros best; simpl; [done|].
  destruct (Nat.ltb_spec (length best) (length c)); [|apply IH].
  etrans; [|apply IH]. lia.
Qed.

Lemma max_by_len_longest best (rest : list (list A)) c :
  c ∈ best :: rest -> length c <= length (max_by_len best rest).
Proof.
  revert best. induction rest as [|c' rest IH]; intros best Hc.
  - apply elem_of_cons in Hc as [->|Hc]; [done|].
    by apply elem_of_nil in Hc.
  - apply elem_of_cons in Hc as [->|Hc].
    { apply max_by_len_ge_best. }
    simpl. destruct (Nat.ltb_spec (length best) (length c')) as [Hlt|Hge].
    + by apply IH.
    + apply elem_of_cons in Hc as [->|Hc].
      * etrans; [exact Hge|apply max_by_len_ge_best].
      * apply IH. by apply list_elem_of_further.
Qed.
End SlicingFacts.

(** The bound 199 is reached: a contour of 199 points is kept whole. *)
Example simplify_199 : length (simplify (seq 0 199)) = 199.
Proof. reflexivity. Qed.

Example simplify_200 : simplify (seq 0 200) = map (fun k => 2 * k) (seq 0 100).
Proof. reflexivity. Qed.

(** ** The extruder's arrays *)

Section ExtrusionFacts.
Context {R : Type} {SR : Scalar R}.
Implicit Types (pts coords : list (R * R)) (height : R).

Lemma center_coords_length pts : length (center_coords pts) = length pts.
Proof. unfold center_coords. by rewrite length_map. Qed.

Lemma max_extent_is_Some coords :
  1 <= length coords -> is_Some (max_extent coords).
Proof.
  destruct coords as [|p coords]; simpl; [lia|]. intros _.
  unfold max_extent. simpl. eauto.
Qed.

(** Centering, scaling and flipping act point by point, in order. *)
Lemma normalize_pointwise pts m :
  max_extent (center_coords pts) = Some m ->
  normalize pts = Some (map (transform_point (mean_axis0 pts) m) pts).
Proof.
  intros Hm. unfold normalize. rewrite Hm. f_equal.
  unfold flip_axis1, scale_to_width, scale_coords, center_coords,
    transform_point.
  destruct (gt_zero m); rewrite ?map_map; apply map_ext; intros [r c]; done.
Qed.

Lemma normalize_is_Some pts :
  1 <= length pts ->
  exists m, max_extent (center_coords pts) = Some m /\
    normalize pts = Some (map (transform_point (mean_axis0 pts) m) pts).
Proof.
  intros Hn.
  destruct (max_extent_is_Some (center_coords pts)) as [m Hm].
  { by rewrite center_coords_length. }
  exists m. split; [done|]. by apply normalize_pointwise.
Qed.

Lemma ring_length z coords : length (ring z coords) = length coords.
Proof. unfold ring. by rewrite length_map. Qed.

Lemma ring_lookup z coords i :
  ring z coords !! i = (fun p => (p.1, p.2, z)) <$> coords !! i.
Proof. unfold ring. apply (list_lookup_fmap _ coords i). Qed.

(** The arrays of a non-empty contour. *)
Lemma extrude_arrays_Ok pts height :
  1 <= length pts ->
  exists m,
    max_extent (center_coords pts) = Some m /\
    (let coords := map (transform_point (mean_axis0 pts) m) pts in
     extrude_arrays pts height =
       Ok (mk_arrays (ring (of_Z 0) coords ++ ring height coords)
                     (build_faces (length pts)))).
Proof.
  intros Hn. destruct (normalize_is_Some pts Hn) as (m & Hm & Hnorm).
  exists m. split; [done|]. unfold extrude_arrays. rewrite Hnorm.
  by rewrite length_map.
Qed.

(** The empty contour makes [np.max] raise. *)
Lemma extrude_arrays_empty height :
  exists msg, extrude_arrays (R:=R) [] height = Raise (ValueError msg).
Proof. eexists. reflexivity. Qed.

Lemma flat_map_ext_in {A B} (f g : A -> list B) (l : list A) :
  (forall x, x ∈ l -> f x = g x) -> flat_map f l = flat_map g l.
Proof.
  induction l as [|x l IH]; intros Hfg; simpl; [done|].
  rewrite (Hfg x) by apply list_elem_of_here.
  rewrite IH; [done|]. intros y Hy. apply Hfg. by apply list_elem_of_further.
Qed.

Lemma flat_map_length_const {A B} (f : A -> list B) (l : list A) k :
  (forall x, length (f x) = k) -> length (flat_map f l) = k * length l.
Proof.
  intros Hk. induction l as [|x l IH]; simpl; [lia|].
  rewrite length_app, Hk, IH. lia.
Qed.

(** The side wall with its closing segment is one quad per ring
    position, the successor taken modulo the ring size. *)
Lemma wall_closed n :
  1 <= n ->
  side_faces n ++ closing_faces n =
  flat_map (fun i => wall_quad n i ((i + 1) mod n)) (seq 0 n).
Proof.
  intros Hn. unfold side_faces, closing_faces.
  replace (seq 0 n) with (seq 0 (n - 1) ++ [n - 1]).
  2:{ replace n with ((n - 1) + 1) at 3 by lia. by rewrite seq_app. }
  rewrite flat_map_app. f_equal.
  - apply flat_map_ext_in. intros i Hi.
    apply list_elem_of_In, in_seq in Hi.
    rewrite Nat.mod_small by lia. unfold wall_quad. done.
  - cbn [flat_map app wall_quad].
    replace (n - 1 + 1) with n by lia. rewrite Nat.Div0.mod_same.
    repeat f_equal; lia.
Qed.

Lemma side_faces_length n : length (side_faces n) = 2 * (n - 1).
Proof.
  unfold side_faces. rewrite (flat_map_length_const _ _ 2) by done.
  by rewrite length_seq.
Qed.

Lemma build_faces_length n :
  2 <= n -> length (build_faces n) = 4 * n - 4.
Proof.
  intros Hn. unfold build_faces, closing_faces, bottom_faces, top_faces.
  rewrite !length_app, side_faces_length, !length_map, !length_seq.
  simpl. lia.
Qed.

Lemma build_faces_in_range n :
  2 <= n -> Forall (face_in_range (2 * n)) (build_faces n).
Proof.
  intros Hn. unfold build_faces. rewrite !Forall_app. repeat split.
  - apply Forall_forall. intros f Hf.
    apply list_elem_of_In, in_flat_map in Hf as (i & Hi & Hf).
    apply in_seq in Hi. simpl in Hf.
    destruct Hf as [<-|[<-|[]]]; unfold face_in_range; simpl; lia.
  - unfold closing_faces.
    repeat constructor; unfold face_in_range; simpl; lia.
  - apply Forall_forall. intros f Hf.
    apply list_elem_of_In, in_map_iff in Hf as (i & <- & Hi).
    apply in_seq in Hi. unfold face_in_range; simpl; lia.
  - apply Forall_forall. intros f Hf.
    apply list_elem_of_In, in_map_iff in Hf as (i & <- & Hi).
    apply in_seq in Hi. unfold face_in_range; simpl; lia.
Qed.
End ExtrusionFacts.

Section ExtrusionClaims.
Context {R : Type} {SR : Scalar R}.
Implicit Types (pts coords : list (R * R)) (height : R).

(** The vertex array of a contour of at least one point: the bottom ring
    followed by the top ring. *)
Lemma extrude_vertex_array pts height :
  1 <= length pts ->
  exists a coords,
    extrude_arrays pts height = Ok a /\
    normalize pts = Some coords /\
    vertices a = ring (of_Z 0) coords ++ ring height coords /\
    length (ring (of_Z 0) coords) = length pts /\
    length (ring height coords) = length pts /\
    length (vertices a) = 2 * length pts.
Proof.
  intros Hn.
  destruct (extrude_arrays_Ok pts height Hn) as (m & Hm & Ha).
  cbv zeta in Ha.
  eexists _, _. split; [exact Ha|].
  split; [by apply normalize_pointwise|]. cbn [vertices].
  rewrite length_app, !ring_length, !length_map. repeat split; lia.
Qed.

(** C5.  For a contour of n >= 3 points and a height h: vertex i is the
    i-th normalised point at z = 0 and vertex n + i the same point at
    z = h, the normalised points being the images of the input points in
    input order; the first 2n faces are the side wall, two triangles
    (i, j, j + n) and (i, j + n, i + n) for every ring position i with
    j = (i + 1) mod n, so that the last segment wraps to the first with
    the same index pattern; the remaining faces are the two caps. *)
Theorem extrude_rings_and_wall pts height :
  3 <= length pts ->
  exists a m,
    extrude_arrays pts height = Ok a /\
    max_extent (center_coords pts) = Some m /\
    (forall i p, pts !! i = Some p ->
       let q := transform_point (mean_axis0 pts) m p in
       vertices a !! i = Some (q.1, q.2, of_Z 0) /\
       vertices a !! (length pts + i) = Some (q.1, q.2, height)) /\
    take (2 * length pts) (faces a) =
      flat_map (fun i => wall_quad (length pts) i ((i + 1) mod length pts))
               (seq 0 (length pts)) /\
    length (take (2 * length pts) (faces a)) = 2 * length pts /\
    drop (2 * length pts) (faces a) =
      bottom_faces (length pts) ++ top_faces (length pts).
Proof.
  intros Hn.
  destruct (extrude_arrays_Ok pts height ltac:(lia)) as (m & Hm & Ha).
  cbv zeta in Ha. eexists _, m. split; [exact Ha|]. split; [done|].
  cbn [vertices faces].
  set (coords := map (transform_point (mean_axis0 pts) m) pts).
  assert (length (side_faces (length pts) ++ closing_faces (length pts))
          = 2 * length pts) as Hlen.
  { rewrite length_app, side_faces_length. simpl. lia. }
  assert (build_faces (length pts) =
          (side_faces (length pts) ++ closing_faces (length pts))
            ++ (bottom_faces (length pts) ++ top_faces (length pts))) as ->.
  { unfold build_faces. by rewrite <- !app_assoc. }
  repeat split.
  - rewrite lookup_app_l.
    2:{ rewrite ring_length. unfold coords. rewrite length_map.
        by eapply lookup_lt_Some. }
    rewrite ring_lookup. unfold coords. rewrite list_lookup_fmap, H. done.
  - rewrite lookup_app_r.
    2:{ rewrite ring_length. unfold coords. rewrite length_map. lia. }
    rewrite ring_length. unfold coords at 1. rewrite length_map.
    replace (length pts + i - length pts) with i by lia.
    rewrite ring_lookup. unfold coords. rewrite list_lookup_fmap, H. done.
  - rewrite take_app_length' by done. apply wall_closed. lia.
  - rewrite take_app_length' by done. done.
  - by rewrite drop_app_length'.
Qed.

(** C10.  For a contour of n >= 3 points every face built by the
    extrusion routine (side wall, closing segment, bottom fan, top fan)
    has its three indices in [0, 2n - 1], the index range of the vertex
    array, and exactly 4n - 4 faces are built: 2n for the wall and n - 2
    for each cap. *)
Theorem extrude_faces_in_range pts height :
  3 <= length pts ->
  exists a,
    extrude_arrays pts height = Ok a /\
    Forall (face_in_range (2 * length pts)) (faces a) /\
    length (vertices a) = 2 * length pts /\
    length (faces a) = 4 * length pts - 4 /\
    faces a = (side_faces (length pts) ++ closing_faces (length pts))
                ++ bottom_faces (length pts) ++ top_faces (length pts) /\
    length (side_faces (length pts) ++ closing_faces (length pts))
      = 2 * length pts /\
    length (bottom_faces (length pts)) = length pts - 2 /\
    length (top_faces (length pts)) = length pts - 2.
Proof.
  intros Hn.
  destruct (extrude_arrays_Ok pts height ltac:(lia)) as (m & Hm & Ha).
  cbv zeta in Ha. eexists. split; [exact Ha|]. cbn [vertices faces].
  repeat split.
  - apply build_faces_in_range. lia.
  - rewrite length_app, !ring_length, !length_map. lia.
  - apply build_faces_length. lia.
  - unfold build_faces. by rewrite <- !app_assoc.
  - rewrite length_app, side_faces_length. simpl. lia.
  - unfold bottom_faces. by rewrite length_map, length_seq.
  - unfold top_faces. by rewrite length_map, length_seq.
Qed.
End ExtrusionClaims.

Lemma extrude_rings_and_wall_witness :
  3 <= length Demo.outline64 /\
  exists a m,
    extrude_arrays Demo.outline64 Demo.pin64 = Ok a /\
    max_extent (center_coords Demo.outline64) = Some m /\
    (forall i p, Demo.outline64 !! i = Some p ->
       let q := transform_point (mean_axis0 Demo.outline64) m p in
       vertices a !! i = Some (q.1, q.2, of_Z 0) /\
       vertices a !! (length Demo.outline64 + i) = Some (q.1, q.2, Demo.pin64)) /\
    take (2 * length Demo.outline64) (faces a) =
      flat_map (fun i => wall_quad (length Demo.outline64) i
                           ((i + 1) mod length Demo.outline64))
               (seq 0 (length Demo.outline64)) /\
    length (take (2 * length Demo.outline64) (faces a))
      = 2 * length Demo.outline64 /\
    drop (2 * length Demo.outline64) (faces a) =
      bottom_faces (length Demo.outline64) ++ top_faces (length Demo.outline64).
Proof.
  split; [simpl; lia|].
  apply (extrude_rings_and_wall Demo.outline64 Demo.pin64).
  simpl; lia.
Defined.

Lemma extrude_faces_in_range_witness :
  3 <= length Demo.outline64 /\
  exists a,
    extrude_arrays Demo.outline64 Demo.pin64 = Ok a /\
    Forall (face_in_range (2 * length Demo.outline64)) (faces a) /\
    length (vertices a) = 2 * length Demo.outline64 /\
    length (faces a) = 4 * length Demo.outline64 - 4 /\
    faces a = (side_faces (length Demo.outline64)
                 ++ closing_faces (length Demo.outline64))
                ++ bottom_faces (length Demo.outline64)
                ++ top_faces (length Demo.outline64) /\
    length (side_faces (length Demo.outline64)
              ++ closing_faces (length Demo.outline64))
      = 2 * length Demo.outline64 /\
    length (bottom_faces (length Demo.outline64))
      = length Demo.outline64 - 2 /\
    length (top_faces (length Demo.outline64)) = length Demo.outline64 - 2.
Proof.
  split; [simpl; lia|].
  apply (extrude_faces_in_range Demo.outline64 Demo.pin64).
  simpl; lia.
Defined.

(** The arrays of the three-point outline, evaluated in binary64. *)
Example extrude_outline64_faces :
  (fun r => match r with Ok a => Some (faces a) | Raise _ => None end)
    (extrude_arrays Demo.outline64 Demo.pin64)
  = Some [(0, 1, 4); (0, 4, 3); (1, 2, 5); (1, 5, 4);
          (2, 0, 3); (2, 3, 5); (0, 2, 1); (3, 4, 5)].
Proof. vm_compute. reflexivity. Qed.

(** ** Centering and scaling in exact arithmetic *)

Section ExactArithmetic.
Local Open Scope Qc_scope.
Implicit Types (x y k m : Qc) (xs : list Qc) (pts coords : list (Qc * Qc)).

Lemma Qc_ltb_lt x y : Qc_ltb x y = true <-> x < y.
Proof.
  rewrite Qclt_alt. unfold Qc_ltb.
  destruct (x ?= y); split; intros; done.
Qed.

Lemma Qc_of_Z_succ (n : nat) :
  Qc_of_Z (Z.of_nat (S n)) = Qc_of_Z (Z.of_nat n) + 1.
Proof.
  apply Qc_is_canon. unfold Qc_of_Z. simpl.
  rewrite !Qred_correct, Nat2Z.inj_succ. unfold Z.succ.
  rewrite inject_Z_plus. reflexivity.
Qed.

Lemma Qc_of_Z_nonneg (n : nat) : 0 <= Qc_of_Z (Z.of_nat n).
Proof.
  induction n as [|n IH]; [done|]. rewrite Qc_of_Z_succ.
  replace 0 with (0 + 0) by ring. apply Qcplus_le_compat; [done|]. done.
Qed.

Lemma Qc_of_Z_succ_neq_0 (n : nat) : Qc_of_Z (Z.of_nat (S n)) <> 0.
Proof.
  rewrite Qc_of_Z_succ. intros Heq.
  pose proof (Qc_of_Z_nonneg n) as Hn.
  assert (Qc_of_Z (Z.of_nat n) = -(1)) as Hm.
  { rewrite <- (Qcplus_0_r (- (1))), <- Heq. ring. }
  rewrite Hm in Hn. by apply Hn.
Qed.

(** Sums. *)
Lemma reduce_plus_shift xs x y :
  reduce fadd (x + y) xs = reduce fadd x xs + y.
Proof.
  unfold reduce. revert x. induction xs as [|z xs IH]; intros x; simpl; [done|].
  replace (x + y + z) with (x + z + y) by ring. apply IH.
Qed.

Lemma reduce_plus_centered xs x mu :
  reduce fadd x (map (fun v => v - mu) xs)
  = reduce fadd x xs - Qc_of_Z (Z.of_nat (length xs)) * mu.
Proof.
  revert x. induction xs as [|z xs IH]; intros x.
  - unfold reduce. cbn [map length fold_left].
    change (Qc_of_Z (Z.of_nat 0)) with 0. ring.
  - cbn [map length]. rewrite Qc_of_Z_succ.
    unfold reduce in *. cbn [fold_left]. rewrite IH.
    change (fadd x (z - mu)) with (x + (z - mu)).
    change (fadd x z) with (x + z).
    replace (x + (z - mu)) with (x + z + (- mu)) by ring.
    pose proof (reduce_plus_shift xs (x + z) (- mu)) as Hs.
    unfold reduce in Hs. rewrite Hs. ring.
Qed.

Lemma column_sum_centered xs :
  (1 <= length xs)%nat ->
  column_sum (map (fun v => v - column_sum xs / Qc_of_Z (Z.of_nat (length xs))) xs) = 0.
Proof.
  destruct xs as [|x xs]; [simpl; lia|]. intros _.
  set (mu := column_sum (x :: xs) / Qc_of_Z (Z.of_nat (length (x :: xs)))).
  cbn [map column_sum]. rewrite reduce_plus_centered.
  pose proof (reduce_plus_shift xs x (- mu)) as Hs.
  replace (x - mu) with (x + - mu) by ring. rewrite Hs.
  unfold mu. cbn [column_sum length]. rewrite Qc_of_Z_succ.
  pose proof (Qc_of_Z_succ_neq_0 (length xs)) as Hne.
  rewrite Qc_of_Z_succ in Hne. field. exact Hne.
Qed.

Lemma centroid_at_origin pts :
  (1 <= length pts)%nat ->
  column_sum (map fst (center_coords pts)) = 0 /\
  column_sum (map snd (center_coords pts)) = 0.
Proof.
  intros Hn.
  assert (map fst (center_coords pts) =
          map (fun v => v - column_sum (map fst pts)
                            / Qc_of_Z (Z.of_nat (length (map fst pts))))
              (map fst pts)) as ->.
  { unfold center_coords, mean_axis0. by rewrite !map_map, length_map. }
  assert (map snd (center_coords pts) =
          map (fun v => v - column_sum (map snd pts)
                            / Qc_of_Z (Z.of_nat (length (map snd pts))))
              (map snd pts)) as ->.
  { unfold center_coords, mean_axis0. by rewrite !map_map, length_map. }
  split; apply column_sum_centered; by rewrite length_map.
Qed.

(** Maxima. *)
Lemma maximum_scale k x y :
  0 < k -> fmaximum (x * k) (y * k) = fmaximum x y * k.
Proof.
  intros Hk. cbn [fmaximum Qc_scalar].
  destruct (Qc_ltb x y) eqn:E.
  - apply Qc_ltb_lt in E.
    assert (Qc_ltb (x * k) (y * k) = true) as ->; [|done].
    apply Qc_ltb_lt. by apply Qcmult_lt_compat_r.
  - assert (Qc_ltb (x * k) (y * k) = false) as ->; [|done].
    apply not_true_is_false. intros Hlt. apply Qc_ltb_lt in Hlt.
    apply not_true_iff_false in E. apply E, Qc_ltb_lt.
    apply Qcnot_le_lt. intros Hle.
    apply (Qcmult_le_compat_r _ _ k) in Hle; [|by apply Qclt_le_weak].
    by apply Qcle_not_lt in Hle.
Qed.

Lemma reduce_maximum_scale k x xs :
  0 < k ->
  reduce fmaximum (x * k) (map (fun v => v * k) xs)
  = reduce fmaximum x xs * k.
Proof.
  intros Hk. unfold reduce. revert x.
  induction xs as [|y xs IH]; intros x; cbn [map fold_left]; [done|].
  rewrite maximum_scale by done. apply IH.
Qed.

Lemma maximum_ge_l x y : x <= fmaximum x y.
Proof.
  cbn [fmaximum Qc_scalar]. destruct (Qc_ltb x y) eqn:E.
  - apply Qc_ltb_lt in E. by apply Qclt_le_weak.
  - apply Qcle_refl.
Qed.

Lemma reduce_maximum_ge x xs : x <= reduce fmaximum x xs.
Proof.
  unfold reduce. revert x. induction xs as [|y xs IH]; intros x; simpl.
  - apply Qcle_refl.
  - eapply Qcle_trans; [apply maximum_ge_l|apply IH].
Qed.

Lemma flatten_scale m coords :
  flatten (scale_coords m coords)
  = map (fun v => v * (Qc_of_Z 40 / m)) (flatten coords).
Proof.
  unfold scale_coords, flatten.
  induction coords as [|[r c] coords IH]; [done|].
  cbn [map flat_map app fst snd]. by rewrite IH.
Qed.

Lemma flatten_flip coords :
  map fabs (flatten (flip_axis1 coords)) = map fabs (flatten coords).
Proof.
  unfold flip_axis1, flatten.
  induction coords as [|[r c] coords IH]; [done|].
  cbn [map flat_map app fst snd]. rewrite IH.
  cbn [fabs fopp Qc_scalar]. by rewrite Qcabs_opp.
Qed.

Lemma max_extent_flip coords :
  max_extent (flip_axis1 coords) = max_extent coords.
Proof. unfold max_extent. by rewrite flatten_flip. Qed.

Lemma max_extent_nonneg coords m : max_extent coords = Some m -> 0 <= m.
Proof.
  unfold max_extent.
  destruct (flatten coords) as [|v vs]; cbn [map]; [done|].
  intros [= <-]. eapply Qcle_trans; [|apply reduce_maximum_ge].
  apply Qcabs_nonneg.
Qed.

Lemma forty_over_pos m : 0 < m -> 0 < Qc_of_Z 40 / m.
Proof.
  intros Hm. unfold Qcdiv.
  assert (0 < / m) as Hinv.
  { apply Qcnot_le_lt. intros Hle.
    assert (m * / m <= 0) as H1.
    { rewrite <- (Qcmult_0_r m), !(Qcmult_comm m).
      apply Qcmult_le_compat_r; [done|by apply Qclt_le_weak]. }
    rewrite Qcmult_inv_r in H1; [by apply H1|].
    intros ->. by apply (Qclt_not_le 0 0). }
  rewrite <- (Qcmult_0_l (/ m)). apply Qcmult_lt_compat_r; done.
Qed.

Lemma max_extent_scale m coords :
  0 < m -> max_extent coords = Some m ->
  max_extent (scale_coords m coords) = Some (Qc_of_Z 40).
Proof.
  intros Hm. unfold max_extent. rewrite flatten_scale.
  destruct (flatten coords) as [|v vs]; cbn [map]; [done|].
  intros [= Hmax]. f_equal.
  pose proof (forty_over_pos m Hm) as Hk.
  set (k := Qc_of_Z 40 / m) in *.
  assert (forall w, fabs (w * k) = fabs w * k) as Habs.
  { intros w. cbn [fabs Qc_scalar]. rewrite Qcabs_Qcmult.
    f_equal. apply Qcabs_pos. by apply Qclt_le_weak. }
  rewrite Habs, map_map.
  rewrite (map_ext _ (fun w => fabs w * k)) by (intros; apply Habs).
  rewrite <- (map_map fabs (fun a => a * k)).
  rewrite reduce_maximum_scale by done.
  replace (reduce fmaximum (fabs v) (map fabs vs)) with m
    by (symmetry; exact Hmax).
  unfold k. rewrite Qcmult_div_r; [done|].
  intros ->. by apply (Qclt_not_le 0 0).
Qed.

End ExactArithmetic.

(** ** Centering, scaling and the flip *)

Section NormalizeFacts.
Context {R : Type} {SR : Scalar R}.
Implicit Types (coords : list (R * R)) (m : R).

(** Without a positive extent nothing is scaled: no quotient is formed. *)
Lemma scale_skipped m coords :
  gt_zero m = false -> scale_to_width m coords = coords.
Proof. unfold scale_to_width. by intros ->. Qed.

Lemma scale_applied m coords :
  gt_zero m = true ->
  scale_to_width m coords =
  map (fun p => (fmul p.1 (fdiv (of_Z 40) m), fmul p.2 (fdiv (of_Z 40) m)))
      coords.
Proof. unfold scale_to_width, scale_coords. by intros ->. Qed.

(** The flip keeps column 0 (the image row) and negates column 1 (the
    image column) of every point. *)
Lemma flip_axis1_lookup coords i :
  flip_axis1 coords !! i = (fun p => (p.1, fopp p.2)) <$> coords !! i.
Proof. unfold flip_axis1. apply (list_lookup_fmap _ coords i). Qed.
End NormalizeFacts.

(** In exact rational arithmetic, for a contour of n >= 3 points: after
    the subtraction of the mean the centroid is the origin (both column
    sums are 0); the maximum absolute coordinate m of the centred points
    is non-negative; when m > 0 the test of line 149 succeeds, every
    coordinate is multiplied by 40/m and the maximum absolute coordinate
    becomes exactly 40, before and after the flip; when m = 0 the test
    fails and scaling is skipped. *)
Lemma exact_center_and_scale (pts : list (Qc * Qc)) :
  3 <= length pts ->
  exists m coords,
    max_extent (center_coords pts) = Some m /\
    normalize pts = Some coords /\
    column_sum (map fst (center_coords pts)) = 0%Qc /\
    column_sum (map snd (center_coords pts)) = 0%Qc /\
    (0 <= m)%Qc /\
    ((0 < m)%Qc ->
       gt_zero m = true /\
       scale_to_width m (center_coords pts) =
         map (fun p => ((p.1 * (Qc_of_Z 40 / m))%Qc,
                        (p.2 * (Qc_of_Z 40 / m))%Qc))
             (center_coords pts) /\
       max_extent (scale_to_width m (center_coords pts)) = Some (Qc_of_Z 40) /\
       max_extent coords = Some (Qc_of_Z 40)) /\
    (m = 0%Qc ->
       gt_zero m = false /\
       scale_to_width m (center_coords pts) = center_coords pts /\
       coords = flip_axis1 (center_coords pts)).
Proof.
  intros Hn.
  destruct (max_extent_is_Some (center_coords pts)) as [m Hm].
  { rewrite center_coords_length. lia. }
  exists m, (flip_axis1 (scale_to_width m (center_coords pts))).
  destruct (centroid_at_origin pts ltac:(lia)) as [Hr Hc].
  pose proof (max_extent_nonneg _ _ Hm) as Hge.
  split; [done|]. split; [unfold normalize; by rewrite Hm|].
  do 3 (split; [done|]). split.
  - intros Hpos.
    assert (gt_zero m = true) as Hgt.
    { cbn [gt_zero Qc_scalar]. by apply Qc_ltb_lt. }
    split; [done|]. rewrite (scale_applied m (center_coords pts) Hgt).
    split; [reflexivity|].
    assert (max_extent (scale_coords m (center_coords pts))
            = Some (Qc_of_Z 40)) as Hmax by by apply max_extent_scale.
    split; [exact Hmax|].
    rewrite max_extent_flip. exact Hmax.
  - intros ->. assert (gt_zero 0%Qc = false) as Hgt by reflexivity.
    split; [done|]. by rewrite scale_skipped.
Qed.

(** In every arithmetic, binary64 included: the mean is subtracted from
    every point; when the extent m of the centred points passes the test
    [m > 0] every coordinate is multiplied by 40/m; when it does not, the
    centred points are kept as they are and no quotient by m is formed. *)
Lemma center_and_scale_steps {R : Type} {SR : Scalar R} (pts : list (R * R)) :
  3 <= length pts ->
  exists m coords,
    max_extent (center_coords pts) = Some m /\
    normalize pts = Some coords /\
    center_coords pts =
      map (fun p => (fsub p.1 (mean_axis0 pts).1, fsub p.2 (mean_axis0 pts).2))
          pts /\
    (gt_zero m = true ->
       scale_to_width m (center_coords pts) =
         map (fun p => (fmul p.1 (fdiv (of_Z 40) m),
                        fmul p.2 (fdiv (of_Z 40) m)))
             (center_coords pts) /\
       coords =
         flip_axis1
           (map (fun p => (fmul p.1 (fdiv (of_Z 40) m),
                           fmul p.2 (fdiv (of_Z 40) m)))
                (center_coords pts))) /\
    (gt_zero m = false ->
       scale_to_width m (center_coords pts) = center_coords pts /\
       coords = flip_axis1 (center_coords pts)).
Proof.
  intros Hn.
  destruct (max_extent_is_Some (center_coords pts)) as [m Hm].
  { rewrite center_coords_length. lia. }
  exists m, (flip_axis1 (scale_to_width m (center_coords pts))).
  split; [done|]. split; [unfold normalize; by rewrite Hm|].
  split; [reflexivity|]. split.
  - intros Hgt. by rewrite (scale_applied m _ Hgt).
  - intros Hgt. by rewrite (scale_skipped m _ Hgt).
Qed.

(** On binary64 an extent that passes the test [max_extent > 0] is not a
    zero, so 40.0 / max_extent never divides by zero; the two zeros and
    NaN fail the test. *)
Lemma gt_zero_binary64 (m : spec_float) :
  gt_zero m = true ->
  SFeqb m (B64.of_Z 0) = false /\ m <> S754_zero false /\
  m <> S754_zero true /\ m <> S754_nan.
Proof.
  destruct m as [[]|[]| |[] mant e]; cbn; intros H;
    try discriminate H; repeat split; try discriminate; reflexivity.
Qed.




(** The same points in exact arithmetic reach 40. *)
Example scaled_extent_collinear_exact :
  max_extent (scale_to_width (Qc_of_Z 77)
                (center_coords (Demo.collinear (R:=Qc))))
  = Some (Qc_of_Z 40).
Proof.
  apply max_extent_scale; [done|].
  destruct (max_extent (center_coords Demo.collinear)) as [m|] eqn:E;
    [|discriminate E].
  assert (option_map this (max_extent (center_coords (Demo.collinear (R:=Qc))))
          = Some (77 # 1)%Q) as E2 by (vm_compute; reflexivity).
  rewrite E in E2. injection E2 as E2.
  f_equal. apply Qc_is_canon. rewrite E2. reflexivity.
Qed.

(** C4 (the code at a concrete contour; the claim does not hold on it).
    The points (row, column) = (0,0), (0,8), (6,1) have mean (2,3) and
    extent 5, so the scale factor is 8, all exactly in binary64.  Centred
    and scaled they are (-16,-24), (-16,40), (32,-16).  After the flip the
    image rows -16, -16, 32 are unchanged and the image columns are
    negated: the code negates column 1 of the array, the image column,
    not the image row; the bottom ring carries the same values. *)
Theorem flip_negates_column_not_row :
  max_extent (center_coords Demo.outline64) = Some (B64.of_Z 5) /\
  scale_to_width (B64.of_Z 5) (center_coords Demo.outline64)
    = [(B64.of_Z (-16), B64.of_Z (-24));
       (B64.of_Z (-16), B64.of_Z 40);
       (B64.of_Z 32, B64.of_Z (-16))] /\
  normalize Demo.outline64
    = Some [(B64.of_Z (-16), B64.of_Z 24);
            (B64.of_Z (-16), B64.of_Z (-40));
            (B64.of_Z 32, B64.of_Z 16)] /\
  (fun r => match r with
            | Ok a => Some (take 3 (vertices a))
            | Raise _ => None
            end) (extrude_arrays Demo.outline64 Demo.pin64)
    = Some [(B64.of_Z (-16), B64.of_Z 24, B64.of_Z 0);
            (B64.of_Z (-16), B64.of_Z (-40), B64.of_Z 0);
            (B64.of_Z 32, B64.of_Z 16, B64.of_Z 0)].
Proof. repeat split; vm_compute; reflexivity. Qed.

(** ** The pipeline *)

(** Closes the cases of a run of one loop iteration: the events printed
    after the first one, none of them a [Creating] line. *)
Ltac close_iteration :=
  eexists; split;
  [ simpl; rewrite <- ?app_assoc; simpl; reflexivity
  | repeat constructor ].

Section PipelineFacts.
Context {R : Type} {SR : Scalar R} {L : Libs R}.
Implicit Types (self : generator) (letter : string) (w : world R)
  (v : string * specs R).

Lemma create_letter_mesh_run self letter t w :
  create_letter_mesh self letter t w =
  (letter_mesh_value self letter t,
   mk_world (console w ++ match letter_mesh_value self letter t with
                          | Ok None => [PrintWarning letter]
                          | _ => []
                          end) (disk w)).
Proof.
  destruct w as [c d].
  unfold create_letter_mesh, letter_mesh_value, bind, call, print, ret.
  cbn [console disk].
  destruct (render_mask self letter) as [mask|e]; [|by rewrite app_nil_r].
  destruct (_extract_contour mask) as [pts|e]; [|by rewrite app_nil_r].
  destruct (length pts <? 3); [done|].
  destruct (_extrude_contour pts t) as [m|e]; by rewrite app_nil_r.
Qed.

Lemma write_file_run p c fs :
  FS.write_file p c fs =
  if FS.dir_present (FS.dirs fs) p
  then (Raise (IsADirectoryError (FS.str p)), fs)
  else if FS.dir_present (FS.dirs fs) (FS.parent p)
       then (Ok tt, FS.mk_state (FS.dirs fs) (<[FS.str p := c]> (FS.files fs)))
       else (Raise (if existsb (FS.is_file fs) (FS.ancestors p)
                    then NotADirectoryError (FS.str p)
                    else FileNotFoundError (FS.str p)), fs).
Proof.
  unfold FS.write_file, FS.entry_error, FS.is_dir.
  destruct (FS.dir_present (FS.dirs fs) p); [done|].
  destruct (FS.dir_present (FS.dirs fs) (FS.parent p)); [done|].
  by destruct (existsb _ _).
Qed.

(** One iteration of the variant loop never raises; it prints its
    [Creating] line first and prints no other one; it leaves the
    directories alone and changes the files by at most one write. *)
Lemma variant_iteration_run self letter v w :
  exists evs,
    variant_iteration self letter v w =
      (Ok tt,
       mk_world (console w ++ PrintCreating v.1 (thickness v.2) :: evs)
         (FS.mk_state (FS.dirs (disk w))
            (apply_write (variant_write self letter v (FS.dirs (disk w)))
               (FS.files (disk w))))) /\
    Forall (fun ev => is_creating ev = false) evs.
Proof.
  destruct w as [c [ds fl]].
  unfold variant_iteration, variant_try, try_except, bind, print.
  cbn [console disk].
  rewrite create_letter_mesh_run. cbn [console disk].
  unfold variant_write. cbn [FS.dirs FS.files].
  destruct (letter_mesh_value self letter (thickness v.2)) as [[m|]|e];
    [|close_iteration..].
  unfold export, bind, call, on_disk. cbn [console disk].
  destruct (stl_bytes m) as [bytes|e]; [|close_iteration].
  rewrite write_file_run. cbn [FS.dirs FS.files].
  destruct (FS.dir_present ds (output_file self letter v.1));
    [close_iteration|].
  destruct (FS.dir_present ds (FS.parent (output_file self letter v.1)));
    [|close_iteration].
  cbn [console disk]. destruct (FS.stat_size _ _) as [n|e]; close_iteration.
Qed.

Lemma filter_none {A} (f : A -> bool) (l : list A) :
  Forall (fun x => f x = false) l -> List.filter f l = [].
Proof.
  induction 1 as [|x l Hx _ IH]; simpl; [done|]. by rewrite Hx.
Qed.

(** The loop over a list of variants. *)
Lemma variant_loop_run self letter (vs : list (string * specs R)) w :
  exists evs,
    for_each vs (variant_iteration self letter) w =
      (Ok tt,
       mk_world (console w ++ evs)
         (FS.mk_state (FS.dirs (disk w))
            (fold_left (fun fl o => apply_write o fl)
               (map (fun v => variant_write self letter v (FS.dirs (disk w))) vs)
               (FS.files (disk w))))) /\
    List.filter is_creating evs
      = map (fun v => PrintCreating v.1 (thickness v.2)) vs.
Proof.
  revert w. induction vs as [|v vs IH]; intros w.
  - exists []. destruct w as [c [ds fl]]. simpl. by rewrite app_nil_r.
  - destruct (variant_iteration_run self letter v w) as (evs1 & Hrun & Hnc).
    cbn [for_each]. unfold bind. rewrite Hrun.
    destruct (IH (mk_world (console w ++ PrintCreating v.1 (thickness v.2) :: evs1)
                   (FS.mk_state (FS.dirs (disk w))
                      (apply_write (variant_write self letter v (FS.dirs (disk w)))
                         (FS.files (disk w))))))
      as (evs2 & Hrest & Hf).
    rewrite Hrest. cbn [console disk FS.dirs FS.files].
    exists (PrintCreating v.1 (thickness v.2) :: evs1 ++ evs2). split.
    + cbn [map fold_left]. by rewrite <- app_assoc.
    + cbn [List.filter is_creating map].
      by rewrite List.filter_app, (filter_none _ _ Hnc), Hf.
Qed.

Lemma generate_letter_variants_run self letter w :
  exists evs,
    generate_letter_variants self letter w =
      (Ok tt,
       mk_world (console w ++ PrintProcessing letter :: evs)
         (FS.mk_state (FS.dirs (disk w))
            (fold_left (fun fl o => apply_write o fl)
               (map (fun v => variant_write self letter v (FS.dirs (disk w)))
                    VARIANTS)
               (FS.files (disk w))))) /\
    List.filter is_creating evs
      = map (fun v => PrintCreating v.1 (thickness v.2)) VARIANTS.
Proof.
  unfold generate_letter_variants, bind, print.
  destruct (variant_loop_run self letter VARIANTS
              (mk_world (console w ++ [PrintProcessing letter]) (disk w)))
    as (evs & Hrun & Hf).
  rewrite Hrun. cbn [console disk]. exists evs. split; [|done].
  by rewrite <- app_assoc.
Qed.

(** Writes only add or replace files. *)
Lemma apply_write_keeps o (fl : gmap string FS.content) p :
  is_Some (fl !! p) -> is_Some (apply_write o fl !! p).
Proof.
  destruct o as [[q c]|]; simpl; [|done]. intros Hp.
  destruct (decide (q = p)) as [->|Hne].
  - rewrite lookup_insert_eq. eauto.
  - by rewrite lookup_insert_ne.
Qed.

Lemma apply_writes_keep os (fl : gmap string FS.content) p :
  is_Some (fl !! p) ->
  is_Some (fold_left (fun fl o => apply_write o fl) os fl !! p).
Proof.
  revert fl. induction os as [|o os IH]; intros fl Hp; simpl; [done|].
  by apply IH, apply_write_keeps.
Qed.

(** A sequence of writes is a left-biased union with the files it
    writes. *)
Lemma apply_write_union o (fl : gmap string FS.content) :
  apply_write o fl = apply_write o ∅ ∪ fl.
Proof.
  destruct o as [[q c]|]; simpl.
  - by rewrite <- insert_union_l, (left_id_L ∅ (∪)).
  - by rewrite (left_id_L ∅ (∪)).
Qed.

Lemma apply_writes_union os (fl : gmap string FS.content) :
  fold_left (fun fl o => apply_write o fl) os fl
  = fold_left (fun fl o => apply_write o fl) os ∅ ∪ fl.
Proof.
  revert fl. induction os as [|o os IH]; intros fl; simpl.
  - by rewrite (left_id_L ∅ (∪)).
  - rewrite (IH (apply_write o fl)), (IH (apply_write o ∅)).
    rewrite (apply_write_union o fl). by rewrite (assoc_L (∪)).
Qed.

Lemma apply_writes_idem os (fl : gmap string FS.content) :
  fold_left (fun fl o => apply_write o fl) os
    (fold_left (fun fl o => apply_write o fl) os fl)
  = fold_left (fun fl o => apply_write o fl) os fl.
Proof.
  rewrite (apply_writes_union os (fold_left _ os fl)).
  rewrite (apply_writes_union os fl).
  by rewrite (assoc_L (∪)), (idemp_L (∪)).
Qed.
End PipelineFacts.

(** ** Paths and directories *)

Section PathFacts.
Implicit Types (s : string) (p : FS.path) (fs : FS.state).

Lemma split_slash_simple s :
  FS.has_slash s = false -> FS.split_slash s = [s].
Proof.
  induction s as [|c s IH]; simpl; [done|].
  destruct (Ascii.eqb c "/"); simpl; [done|].
  intros Hs. by rewrite IH.
Qed.

Lemma has_slash_append s t :
  FS.has_slash (String.append s t) = FS.has_slash s || FS.has_slash t.
Proof.
  induction s as [|c s IH]; simpl; [done|].
  by rewrite IH, orb_assoc.
Qed.

(** A single component parses to itself. *)
Lemma FilePath_simple s :
  FS.has_slash s = false -> s <> ""%string -> s <> "."%string ->
  FS.FilePath s = FS.mk_path false [s].
Proof.
  intros Hs Hne Hnd. unfold FS.FilePath. rewrite split_slash_simple by done.
  f_equal.
  - destruct s as [|c s]; [done|].
    cbn [FS.has_slash] in Hs. apply orb_false_elim in Hs as [Hc _].
    apply Ascii.eqb_neq in Hc.
    cbn [String.prefix]. destruct (Ascii.ascii_dec "/" c); [congruence|done].
  - simpl. unfold FS.keep_part.
    destruct (String.eqb_spec s ""); [done|].
    destruct (String.eqb_spec s "."); [done|]. done.
Qed.

Lemma join_simple p s :
  FS.has_slash s = false -> s <> ""%string -> s <> "."%string ->
  FS.join p s = FS.mk_path (FS.anchored p) (FS.parts p ++ [s]).
Proof.
  intros Hs Hne Hnd. unfold FS.join. by rewrite FilePath_simple.
Qed.

Lemma output_file_parts (self : generator) letter variant_name :
  FS.has_slash letter = false -> FS.has_slash variant_name = false ->
  variant_name <> ""%string -> variant_name <> "."%string ->
  output_file self letter variant_name =
  FS.mk_path (FS.anchored (output_dir self))
    (FS.parts (output_dir self)
       ++ [variant_name; letter_filename letter variant_name]).
Proof.
  intros Hl Hv Hne Hnd. unfold output_file, letter_filename.
  rewrite (join_simple _ variant_name) by done.
  rewrite join_simple.
  - cbn [FS.anchored FS.parts]. by rewrite <- app_assoc.
  - rewrite !has_slash_append, Hl, Hv. reflexivity.
  - discriminate.
  - discriminate.
Qed.

(** The letters of both letter sets are single path components. *)
Lemma processed_letters_no_slash letter :
  letter ∈ CENTRIA_LETTERS ++ FULL_ALPHABET -> FS.has_slash letter = false.
Proof.
  intros Hin.
  assert (Forall (fun l => FS.has_slash l = false)
            (CENTRIA_LETTERS ++ FULL_ALPHABET)) as Hall.
  { unfold CENTRIA_LETTERS, FULL_ALPHABET. cbn [app].
    repeat constructor. }
  rewrite Forall_forall in Hall. by apply Hall.
Qed.

(** Directories. *)
Lemma dir_present_mono (ds ds' : gset string) p :
  ds ⊆ ds' -> FS.dir_present ds p = true -> FS.dir_present ds' p = true.
Proof.
  unfold FS.dir_present. destruct (FS.parts p); [done|].
  rewrite !bool_decide_eq_true. set_solver.
Qed.

Lemma dir_present_added (ds : gset string) p :
  FS.dir_present ({[FS.str p]} ∪ ds) p = true.
Proof.
  unfold FS.dir_present. destruct (FS.parts p); [done|].
  rewrite bool_decide_eq_true. set_solver.
Qed.

Lemma os_mkdir_Ok p fs fs' :
  FS.os_mkdir p fs = (Ok tt, fs') ->
  fs' = FS.mk_state ({[FS.str p]} ∪ FS.dirs fs) (FS.files fs).
Proof.
  unfold FS.os_mkdir. destruct (_ || _); [done|].
  destruct (FS.entry_error fs p); [done|]. by intros [= <-].
Qed.

Lemma mkdir_flat_Ok exist_ok p fs fs' :
  FS.mkdir_flat exist_ok p fs = (Ok tt, fs') -> mkdir_post p fs fs'.
Proof.
  unfold FS.mkdir_flat, mkdir_post.
  destruct (FS.os_mkdir p fs) as [[[]|e] fs1] eqn:E.
  - intros [= <-]. apply os_mkdir_Ok in E as ->. cbn [FS.dirs FS.files].
    unfold FS.is_dir. cbn [FS.dirs].
    split; [apply dir_present_added|]. split; [set_solver|done].
  - destruct e; try done.
    destruct (exist_ok && FS.is_dir fs p) eqn:Hd; [|done].
    intros [= <-]. apply andb_true_iff in Hd as [_ Hd]. done.
Qed.

Lemma mkdir_post_trans pp p fs fs1 fs2 :
  mkdir_post pp fs fs1 -> mkdir_post p fs1 fs2 -> mkdir_post p fs fs2.
Proof.
  unfold mkdir_post. intros (_ & Hd1 & Hf1) (Hp & Hd2 & Hf2).
  split; [done|]. split; [set_solver|congruence].
Qed.

Lemma mkdir_parents_Ok exist_ok anch rev_parts fs fs' :
  FS.mkdir_parents exist_ok anch rev_parts fs = (Ok tt, fs') ->
  mkdir_post (FS.mk_path anch (rev rev_parts)) fs fs'.
Proof.
  revert exist_ok fs fs'.
  induction rev_parts as [|x rp IH]; intros exist_ok fs fs'.
  - cbn [FS.mkdir_parents].
    destruct (FS.os_mkdir _ fs) as [[[]|e] fs1] eqn:E.
    + intros [= <-]. apply (mkdir_flat_Ok false _ fs).
      unfold FS.mkdir_flat. by rewrite E.
    + destruct e; try done.
      destruct (exist_ok && FS.is_dir fs _) eqn:Hd; [|done].
      intros [= <-]. apply andb_true_iff in Hd as [_ Hd]. by split.
  - cbn [FS.mkdir_parents].
    destruct (FS.os_mkdir _ fs) as [[[]|e] fs1] eqn:E.
    + intros [= <-]. apply (mkdir_flat_Ok false _ fs).
      unfold FS.mkdir_flat. by rewrite E.
    + destruct e; try done.
      * destruct (FS.mkdir_parents true anch rp fs) as [[[]|e'] fs2] eqn:E2;
          [|done].
        intros Hflat. apply IH in E2. apply mkdir_flat_Ok in Hflat.
        by eapply mkdir_post_trans.
      * destruct (exist_ok && FS.is_dir fs _) eqn:Hd; [|done].
        intros [= <-]. apply andb_true_iff in Hd as [_ Hd]. by split.
Qed.

Lemma mkdir_Ok parents exist_ok p fs fs' :
  FS.mkdir parents exist_ok p fs = (Ok tt, fs') -> mkdir_post p fs fs'.
Proof.
  unfold FS.mkdir. destruct parents.
  - intros Hm. apply mkdir_parents_Ok in Hm.
    rewrite rev_involutive in Hm. by destruct p.
  - apply mkdir_flat_Ok.
Qed.
End PathFacts.

(** ** The generator's claims *)

Section GeneratorFacts.
Context {R : Type} {SR : Scalar R} {L : Libs R}.
Implicit Types (self : generator) (letter : string) (w : world R)
  (v : string * specs R).

Lemma variant_name_simple v :
  v ∈ VARIANTS (R:=R) ->
  FS.has_slash v.1 = false /\ v.1 <> ""%string /\ v.1 <> "."%string.
Proof.
  unfold VARIANTS. rewrite !elem_of_cons, elem_of_nil.
  intros [->|[->|[->|[->|[]]]]]; done.
Qed.

Lemma apply_write_other o (fl : gmap string FS.content) p c :
  fl !! p = Some c -> (forall c', o <> Some (p, c')) ->
  apply_write o fl !! p = Some c.
Proof.
  destruct o as [[q c']|]; simpl; [|done]. intros Hp Hne.
  rewrite lookup_insert_ne; [done|]. intros ->. by apply (Hne c').
Qed.

Lemma variant_write_path self letter v ds q c :
  variant_write self letter v ds = Some (q, c) ->
  q = FS.str (output_file self letter v.1).
Proof.
  unfold variant_write.
  destruct (letter_mesh_value _ _ _) as [[m|]|]; try done.
  destruct (stl_bytes m); try done.
  destruct (FS.dir_present ds _); try done.
  destruct (FS.dir_present ds _); try done. by intros [= <- _].
Qed.

Lemma generate_letter_variants_total self letter w :
  fst (generate_letter_variants self letter w) = Ok tt.
Proof.
  destruct (generate_letter_variants_run self letter w) as (evs & -> & _).
  done.
Qed.

Lemma generate_letter_variants_disk self letter w :
  disk (snd (generate_letter_variants self letter w)) =
  FS.mk_state (FS.dirs (disk w))
    (fold_left (fun fl o => apply_write o fl)
       (map (fun v => variant_write self letter v (FS.dirs (disk w))) VARIANTS)
       (FS.files (disk w))).
Proof.
  destruct (generate_letter_variants_run self letter w) as (evs & -> & _).
  done.
Qed.

(** A whole run for one letter removes no directory and no file. *)
Lemma generate_letter_variants_keeps self letter w :
  FS.dirs (disk (snd (generate_letter_variants self letter w)))
    = FS.dirs (disk w) /\
  forall p, is_Some (FS.files (disk w) !! p) ->
    is_Some (FS.files (disk (snd (generate_letter_variants self letter w))) !! p).
Proof.
  rewrite generate_letter_variants_disk. cbn [FS.dirs FS.files].
  split; [done|]. intros p. apply apply_writes_keep.
Qed.

Lemma generate_letters_run self (letters : list string) w :
  exists w',
    generate_letters self letters w = (Ok tt, w') /\
    FS.dirs (disk w') = FS.dirs (disk w) /\
    forall p, is_Some (FS.files (disk w) !! p) ->
      is_Some (FS.files (disk w') !! p).
Proof.
  unfold generate_letters. revert w.
  induction letters as [|letter letters IH]; intros w.
  - exists w. by split.
  - cbn [for_each]. unfold bind.
    pose proof (generate_letter_variants_total self letter w) as Hfst.
    destruct (generate_letter_variants_keeps self letter w) as [Hd Hf].
    destruct (generate_letter_variants self letter w) as [r w1].
    cbn [fst snd] in *. subst r.
    destruct (IH w1) as (w' & Hrun & Hd' & Hf').
    exists w'. split; [done|]. split; [congruence|]. auto.
Qed.

Lemma letter_mesh_value_None self letter mask contour_points t :
  render_mask self letter = Ok mask ->
  _extract_contour mask = Ok contour_points ->
  length contour_points < 3 ->
  letter_mesh_value self letter t = Ok None.
Proof.
  intros Hmask Hpts Hlen. unfold letter_mesh_value. rewrite Hmask, Hpts.
  by destruct (Nat.ltb_spec (length contour_points) 3); [|lia].
Qed.

Lemma skipped_loop_run self letter (vs : list (string * specs R)) w :
  (forall t, letter_mesh_value self letter t = Ok None) ->
  for_each vs (variant_iteration self letter) w =
    (Ok tt,
     mk_world
       (console w ++
          flat_map (fun v => [PrintCreating v.1 (thickness v.2);
                              PrintWarning letter; PrintFailed]) vs)
       (disk w)).
Proof.
  intros Hnone. revert w. induction vs as [|v vs IH]; intros [c d].
  - simpl. by rewrite app_nil_r.
  - cbn [for_each flat_map]. unfold bind at 1.
    unfold variant_iteration, variant_try, try_except, bind, print.
    cbn [console disk]. rewrite create_letter_mesh_run, Hnone.
    cbn [console disk]. rewrite IH. cbn [console disk].
    by rewrite <- !app_assoc.
Qed.

(** The loop of [__init__] over the variant names. *)
Lemma init_loop_Ok (od : FS.path) (names : list string) w w' :
  for_each names
    (fun variant => on_disk (FS.mkdir false true (FS.join od variant))) w
    = (Ok tt, w') ->
  FS.dirs (disk w) ⊆ FS.dirs (disk w') /\
  forall name, name ∈ names -> FS.is_dir (disk w') (FS.join od name) = true.
Proof.
  revert w. induction names as [|x names IH]; intros w.
  - intros [= <-]. split; [done|]. intros name Hn. by apply elem_of_nil in Hn.
  - cbn [for_each]. unfold bind at 1. unfold on_disk at 1.
    destruct (FS.mkdir false true (FS.join od x) (disk w))
      as [[[]|e] fs1] eqn:E; [|done].
    intros Hrest. apply IH in Hrest as [Hsub Hall]. cbn [disk] in Hsub.
    apply mkdir_Ok in E as (Hx & Hd & _).
    split; [by etrans|]. intros name Hn.
    apply elem_of_cons in Hn as [->|Hn]; [|by apply Hall].
    unfold FS.is_dir in *. by eapply dir_present_mono.
Qed.
End GeneratorFacts.

Section GeneratorClaims.
Context {R : Type} {SR : Scalar R} {L : Libs R}.
Implicit Types (self : generator) (letter : string) (w : world R)
  (v : string * specs R).

(** C1 (as amended).  For a contour of n >= 3 points the extrusion
    routine builds a vertex array of exactly 2n rows, the n bottom-ring
    vertices (the normalised points at z = 0) followed by the n top-ring
    vertices (the same points at z = height) and nothing else, and hands
    it to the mesh constructor; the mesh it returns is what the
    constructor, [fix_normals] and [fill_holes] make of that array in
    turn, so the vertex count of the mesh is the library's, not the
    routine's. *)
Theorem extrude_vertex_count (pts : list (R * R)) (height : R) :
  3 <= length pts ->
  exists a coords,
    extrude_arrays pts height = Ok a /\
    normalize pts = Some coords /\
    vertices a = ring (of_Z 0) coords ++ ring height coords /\
    length (ring (of_Z 0) coords) = length pts /\
    length (ring height coords) = length pts /\
    length (vertices a) = 2 * length pts /\
    _extrude_contour pts height =
      match Trimesh a with
      | Raise e => Raise e
      | Ok mesh_obj =>
          match fix_normals mesh_obj with
          | Raise e => Raise e
          | Ok mesh_obj => fill_holes mesh_obj
          end
      end /\
    (forall mesh_obj,
       _extrude_contour pts height = Ok mesh_obj ->
       exists constructed repaired,
         Trimesh a = Ok constructed /\
         fix_normals constructed = Ok repaired /\
         fill_holes repaired = Ok mesh_obj).
Proof.
  intros Hn.
  destruct (extrude_vertex_array pts height ltac:(lia))
    as (a & coords & Ha & Hc & Hv & Hb & Ht & Hlen).
  exists a, coords. do 6 (split; [done|]).
  unfold _extrude_contour. rewrite Ha. split; [done|].
  intros mesh_obj.
  destruct (Trimesh a) as [m0|e] eqn:E0; [|done].
  destruct (fix_normals m0) as [m1|e] eqn:E1; [|done].
  intros E2. by exists m0, m1.
Qed.

(** C2 (as amended).  When the tracer returns at least one contour, the
    extractor returns a longest one downsampled by fixed-stride skipping
    with stride max(1, len // 100): point k of the result is point
    k * stride of the contour, the result has ceil(len / stride) points,
    and that count is bounded for every contour length: it is at most 199
    (not about 100: a contour of 100 to 199 points has stride 1), at least
    100 once the contour has 100 points, and a contour of fewer than 200
    points is returned whole. *)
Theorem extract_contour_downsampling mask c contours :
  find_contours mask (fdiv (of_Z 1) (of_Z 2)) = Ok (c :: contours) ->
  exists simplified,
    _extract_contour mask = Ok simplified /\
    max_by_len c contours ∈ c :: contours /\
    (forall c', c' ∈ c :: contours ->
       length c' <= length (max_by_len c contours)) /\
    simplified =
      slice_step (Nat.max 1 (length (max_by_len c contours) / 100))
        (max_by_len c contours) /\
    (forall k,
       simplified !! k =
       max_by_len c contours
         !! (k * Nat.max 1 (length (max_by_len c contours) / 100))) /\
    length simplified =
      (length (max_by_len c contours)
         + Nat.max 1 (length (max_by_len c contours) / 100) - 1)
        / Nat.max 1 (length (max_by_len c contours) / 100) /\
    length simplified <= 199 /\
    (100 <= length (max_by_len c contours) -> 100 <= length simplified) /\
    (length (max_by_len c contours) < 200 ->
       simplified = max_by_len c contours).
Proof.
  intros Hfc. exists (simplify (max_by_len c contours)).
  unfold _extract_contour. rewrite Hfc. split; [done|].
  split; [apply max_by_len_elem|]. split; [apply max_by_len_longest|].
  split; [done|]. split; [apply simplify_lookup|]. split; [apply simplify_length|].
  split; [apply simplify_length_upper|].
  split; [apply simplify_length_lower|apply simplify_short].
Qed.

(** C6.  A letter whose extracted contour has fewer than 3 points (the
    empty list when the tracer finds no curve) gets no mesh:
    [create_letter_mesh] prints the warning and returns [None] without
    touching the disk, and the loop over the variants prints, for each of
    the four variants in turn, the progress line, the warning and the
    failure line, writes nothing, and returns normally. *)
Theorem insufficient_contour_is_skipped self letter mask contour_points w :
  render_mask self letter = Ok mask ->
  _extract_contour mask = Ok contour_points ->
  length contour_points < 3 ->
  (find_contours mask (fdiv (of_Z 1) (of_Z 2)) = Ok [] ->
     contour_points = []) /\
  (forall t,
     create_letter_mesh self letter t w =
       (Ok None, mk_world (console w ++ [PrintWarning letter]) (disk w))) /\
  generate_letter_variants self letter w =
    (Ok tt,
     mk_world
       (console w ++ PrintProcessing letter ::
          flat_map (fun v => [PrintCreating v.1 (thickness v.2);
                              PrintWarning letter; PrintFailed]) VARIANTS)
       (disk w)).
Proof.
  intros Hmask Hpts Hlen.
  pose proof (letter_mesh_value_None self letter mask contour_points)
    as Hnone.
  split; [|split].
  - intros Hfc. unfold _extract_contour in Hpts. rewrite Hfc in Hpts.
    by injection Hpts as <-.
  - intros t. rewrite create_letter_mesh_run, (Hnone t) by done. done.
  - unfold generate_letter_variants, bind, print.
    rewrite skipped_loop_run by (intros t; by apply Hnone).
    cbn [console disk]. by rewrite <- app_assoc.
Qed.

(** C7.  Whatever exception the body of the [try] raises for a (letter,
    variant) pair, the iteration returns normally after printing the
    error and its traceback, with the disk as it was when the exception
    was raised; an iteration keeps every file it does not overwrite; the
    loop for a letter returns normally having attempted all four variants
    in order, keeps every directory and every file that existed; and the
    loop over the letters returns normally as well. *)
Theorem variant_failures_are_contained self letter w :
  (forall v e w1,
     variant_try self letter v.1 v.2
       (mk_world (console w ++ [PrintCreating v.1 (thickness v.2)]) (disk w))
       = (Raise e, w1) ->
     variant_iteration self letter v w =
       (Ok tt,
        mk_world (console w1 ++ [PrintError e; PrintTraceback e]) (disk w1))) /\
  (forall v p c,
     FS.files (disk w) !! p = Some c ->
     p <> FS.str (output_file self letter v.1) ->
     FS.files (disk (snd (variant_iteration self letter v w))) !! p = Some c) /\
  (exists evs w',
     generate_letter_variants self letter w = (Ok tt, w') /\
     console w' = console w ++ PrintProcessing letter :: evs /\
     List.filter is_creating evs
       = map (fun v => PrintCreating v.1 (thickness v.2)) VARIANTS /\
     FS.dirs (disk w') = FS.dirs (disk w) /\
     (forall p, is_Some (FS.files (disk w) !! p) ->
        is_Some (FS.files (disk w') !! p))) /\
  (forall letters,
     exists w',
       generate_letters self letters w = (Ok tt, w') /\
       FS.dirs (disk w') = FS.dirs (disk w) /\
       (forall p, is_Some (FS.files (disk w) !! p) ->
          is_Some (FS.files (disk w') !! p))).
Proof.
  split; [|split; [|split]].
  - intros v e w1 Htry.
    unfold variant_iteration, try_except, bind, print. cbn [fst snd].
    rewrite Htry. cbn [console disk]. by rewrite <- app_assoc.
  - intros v p c Hp Hne.
    destruct (variant_iteration_run self letter v w) as (evs & -> & _).
    cbn [snd disk FS.files]. apply apply_write_other; [done|].
    intros c' Hw. apply variant_write_path in Hw. done.
  - destruct (generate_letter_variants_run self letter w) as (evs & Hrun & Hf).
    eexists evs, _. split; [exact Hrun|]. cbn [console disk FS.dirs FS.files].
    split; [done|]. split; [done|]. split; [done|].
    intros p. apply apply_writes_keep.
  - intros letters. apply generate_letters_run.
Qed.

(** C8.  For a variant of the table and a letter without a path
    separator (every letter of both letter sets), the file name is
    Letter_<letter>_<variant>.stl, spelled out, and the output file is
    <output_dir>/<variant>/Letter_<letter>_<variant>.stl: the components
    of the output directory followed by the variant name and the file
    name; under the default root its string is
    Centria_3D_Models/Letters_Library/<variant>/Letter_<letter>_<variant>.stl;
    when the mesh is built and serialised and the variant directory
    exists, the body of the [try] writes exactly that file and reports it;
    whenever the body returns, the files are unchanged or changed at that
    path only; and a generator returned by [__init__] (for an output
    directory that does not start with two slashes, which [FS.FilePath]
    does not tell from one) has the variant subdirectory in place. *)
Theorem output_path_layout self letter v w :
  v ∈ VARIANTS (R:=R) ->
  FS.has_slash letter = false ->
  letter_filename letter v.1 =
    String.append "Letter_"
      (String.append letter (String.append "_" (String.append v.1 ".stl"))) /\
  output_file self letter v.1 =
    FS.mk_path (FS.anchored (output_dir self))
      (FS.parts (output_dir self)
         ++ [v.1;
             String.append "Letter_"
               (String.append letter
                  (String.append "_" (String.append v.1 ".stl")))]) /\
  (output_dir self = FS.FilePath default_output_dir ->
     FS.str (output_file self letter v.1) =
     String.append "Centria_3D_Models/Letters_Library/"
       (String.append v.1
          (String.append "/Letter_"
             (String.append letter
                (String.append "_" (String.append v.1 ".stl")))))) /\
  (forall m bytes,
     letter_mesh_value self letter (thickness v.2) = Ok (Some m) ->
     stl_bytes m = Ok bytes ->
     FS.is_dir (disk w) (output_file self letter v.1) = false ->
     FS.is_dir (disk w) (FS.parent (output_file self letter v.1)) = true ->
     variant_try self letter v.1 v.2 w =
       (Ok tt,
        mk_world (console w ++ [PrintOk (length bytes) (n_vertices m)])
          (FS.mk_state (FS.dirs (disk w))
             (<[FS.str (output_file self letter v.1) := bytes]>
                (FS.files (disk w)))))) /\
  (forall w',
     variant_try self letter v.1 v.2 w = (Ok tt, w') ->
     FS.files (disk w') = FS.files (disk w) \/
     exists bytes,
       FS.files (disk w') =
       <[FS.str (output_file self letter v.1) := bytes]> (FS.files (disk w))) /\
  (forall output_dir font_size w0 g w1,
     String.prefix "//" output_dir = false ->
     __init__ output_dir font_size w0 = (Ok g, w1) ->
     g = mk_generator (FS.FilePath output_dir) font_size /\
     FS.is_dir (disk w1) (FS.join (FS.FilePath output_dir) v.1) = true).
Proof.
  intros Hv Hl.
  destruct (variant_name_simple v Hv) as (Hvs & Hvne & Hvnd).
  pose proof (output_file_parts self letter v.1 Hl Hvs Hvne Hvnd) as Hparts.
  split; [reflexivity|]. split; [exact Hparts|].
  split; [|split; [|split]].
  - intros Hod. rewrite Hparts, Hod. revert Hv. unfold VARIANTS.
    rewrite !elem_of_cons, elem_of_nil.
    intros [->|[->|[->|[->|[]]]]]; reflexivity.
  - intros m bytes Hm Hb Hnd Hpd. destruct w as [c [ds fl]].
    unfold variant_try, bind. rewrite create_letter_mesh_run, Hm.
    cbn [console disk]. unfold export, bind, call, on_disk.
    rewrite Hb. cbn [console disk]. rewrite write_file_run.
    unfold FS.is_dir in Hnd, Hpd. cbn [disk FS.dirs] in Hnd, Hpd.
    cbn [FS.dirs FS.files]. rewrite Hnd, Hpd. cbn [console disk].
    unfold FS.stat_size. cbn [FS.files]. rewrite lookup_insert_eq.
    unfold print. cbn [console disk]. by rewrite app_nil_r.
  - intros w'. destruct w as [c [ds fl]].
    unfold variant_try, bind. rewrite create_letter_mesh_run.
    cbn [console disk].
    destruct (letter_mesh_value self letter (thickness v.2)) as [[m|]|e];
      [| |done].
    + unfold export, bind, call, on_disk. cbn [console disk].
      destruct (stl_bytes m) as [bytes|e]; [|done].
      rewrite write_file_run. cbn [FS.dirs FS.files].
      destruct (FS.dir_present ds _); [done|].
      destruct (FS.dir_present ds _); [|by destruct (existsb _ _)].
      cbn [console disk]. destruct (FS.stat_size _ _); [|done].
      unfold print. cbn [console disk]. intros [= <-]. right. by exists bytes.
    + unfold print. intros [= <-]. by left.
  - intros od n w0 g w1 _. unfold __init__, bind, ret, on_disk.
    destruct (FS.mkdir true true (FS.FilePath od) (disk w0))
      as [[[]|e] fs1] eqn:E1; [|done].
    cbn [console disk].
    destruct (for_each _ _ _) as [[[]|e] w2] eqn:E2; [|done].
    intros [= <- <-]. split; [done|].
    apply init_loop_Ok in E2 as [_ Hall]. apply Hall.
    apply list_elem_of_fmap. by exists v.
Qed.

(** C9.  The contour-to-mesh computation is a function of its inputs:
    equal masks give equal downsampled contours, equal contours and
    heights give equal vertex and face arrays and equal meshes, the mesh
    built for a letter does not depend on the state of the console or the
    disk, and generating a letter again leaves the disk exactly as the
    first generation left it (every file is rewritten with the same
    bytes). *)
Theorem geometry_is_reproducible self letter :
  (forall mask1 mask2,
     mask1 = mask2 -> _extract_contour mask1 = _extract_contour mask2) /\
  (forall pts1 pts2 h1 h2,
     pts1 = pts2 -> h1 = h2 ->
     extrude_arrays pts1 h1 = extrude_arrays pts2 h2 /\
     _extrude_contour pts1 h1 = _extrude_contour pts2 h2) /\
  (forall t w1 w2,
     fst (create_letter_mesh self letter t w1)
       = fst (create_letter_mesh self letter t w2)) /\
  (forall w,
     disk (snd (generate_letter_variants self letter
                  (snd (generate_letter_variants self letter w))))
       = disk (snd (generate_letter_variants self letter w))).
Proof.
  split; [|split; [|split]].
  - by intros mask1 mask2 ->.
  - by intros pts1 pts2 h1 h2 -> ->.
  - intros t w1 w2. by rewrite !create_letter_mesh_run.
  - intros w. rewrite (generate_letter_variants_disk self letter (snd _)).
    rewrite generate_letter_variants_disk. cbn [FS.dirs FS.files].
    by rewrite apply_writes_idem.
Qed.
End GeneratorClaims.

(** ** Closed instances *)

Lemma extract_contour_downsampling_witness :
  find_contours (Libs:=Sample.tracing64 [Sample.line64 250; Demo.outline64])
      Demo.inked (fdiv (of_Z 1) (of_Z 2))
    = Ok (Sample.line64 250 :: [Demo.outline64]) /\
  exists simplified,
    _extract_contour
        (L:=Sample.tracing64 [Sample.line64 250; Demo.outline64]) Demo.inked
      = Ok simplified /\
    max_by_len (Sample.line64 250) [Demo.outline64]
      ∈ Sample.line64 250 :: [Demo.outline64] /\
    (forall c', c' ∈ Sample.line64 250 :: [Demo.outline64] ->
       length c' <= length (max_by_len (Sample.line64 250) [Demo.outline64])) /\
    simplified =
      slice_step
        (Nat.max 1
           (length (max_by_len (Sample.line64 250) [Demo.outline64]) / 100))
        (max_by_len (Sample.line64 250) [Demo.outline64]) /\
    (forall k,
       simplified !! k =
       max_by_len (Sample.line64 250) [Demo.outline64]
         !! (k * Nat.max 1
                   (length (max_by_len (Sample.line64 250) [Demo.outline64])
                      / 100))) /\
    length simplified =
      (length (max_by_len (Sample.line64 250) [Demo.outline64])
         + Nat.max 1
             (length (max_by_len (Sample.line64 250) [Demo.outline64]) / 100)
         - 1)
        / Nat.max 1
            (length (max_by_len (Sample.line64 250) [Demo.outline64]) / 100) /\
    length simplified <= 199 /\
    (100 <= length (max_by_len (Sample.line64 250) [Demo.outline64]) ->
       100 <= length simplified) /\
    (length (max_by_len (Sample.line64 250) [Demo.outline64]) < 200 ->
       simplified = max_by_len (Sample.line64 250) [Demo.outline64]).
Proof.
  split; [reflexivity|].
  apply (extract_contour_downsampling
           (L:=Sample.tracing64 [Sample.line64 250; Demo.outline64])
           Demo.inked (Sample.line64 250) [Demo.outline64]).
  reflexivity.
Defined.

(** The contour of 250 points is the longer one, has stride 2 and is cut
    down to its 125 points of even index. *)
Example extract_contour_250 :
  _extract_contour (L:=Sample.tracing64 [Sample.line64 250; Demo.outline64])
    Demo.inked
  = Ok (map (fun k => (B64.of_Z (Z.of_nat (2 * k)), B64.of_Z 0)) (seq 0 125)).
Proof. vm_compute. reflexivity. Qed.

(** C2 as stated fails: the count is not bounded near 100.  A contour of
    199 points has stride max(1, 199 // 100) = 1, so the extractor returns
    all of its 199 points, almost twice 100; so does every contour of 101
    to 199 points. *)
Lemma downsampling_keeps_199_points :
  find_contours (Libs:=Sample.tracing64 [Sample.line64 199]) Demo.inked
      (fdiv (of_Z 1) (of_Z 2))
    = Ok [Sample.line64 199] /\
  length (Sample.line64 199) = 199 /\
  Nat.max 1 (length (Sample.line64 199) / 100) = 1 /\
  _extract_contour (L:=Sample.tracing64 [Sample.line64 199]) Demo.inked
    = Ok (Sample.line64 199) /\
  150 < length (Sample.line64 199).
Proof.
  split; [reflexivity|]. split; [reflexivity|]. split; [reflexivity|].
  split; [vm_compute; reflexivity|]. vm_compute. lia.
Qed.

Lemma insufficient_contour_is_skipped_witness :
  render_mask (L:=Demo.libs64) Demo.gen " " = Ok Demo.blank /\
  _extract_contour (L:=Demo.libs64) Demo.blank = Ok [] /\
  length ([] : list (spec_float * spec_float)) < 3 /\
  (find_contours (Libs:=Demo.libs64) Demo.blank (fdiv (of_Z 1) (of_Z 2)) = Ok [] ->
     ([] : list (spec_float * spec_float)) = []) /\
  (forall t,
     create_letter_mesh (L:=Demo.libs64) Demo.gen " " t Demo.ready64 =
       (Ok None,
        mk_world (console Demo.ready64 ++ [PrintWarning " "])
          (disk Demo.ready64))) /\
  generate_letter_variants (L:=Demo.libs64) Demo.gen " " Demo.ready64 =
    (Ok tt,
     mk_world
       (console Demo.ready64 ++ PrintProcessing " " ::
          flat_map (fun v => [PrintCreating v.1 (thickness v.2);
                              PrintWarning " "; PrintFailed]) VARIANTS)
       (disk Demo.ready64)).
Proof.
  split; [reflexivity|]. split; [reflexivity|]. split; [simpl; lia|].
  apply (insufficient_contour_is_skipped (L:=Demo.libs64) Demo.gen " "
           Demo.blank [] Demo.ready64); [reflexivity|reflexivity|simpl; lia].
Defined.

Lemma variant_failures_are_contained_witness :
  variant_try (L:=Demo.fails64) Demo.gen "A" "pin" Demo.pin64_variant.2
    (mk_world (console Demo.ready64 ++ [PrintCreating "pin" Demo.pin64])
       (disk Demo.ready64))
    = (Raise (LibraryError "export failed"),
       mk_world [PrintCreating "pin" Demo.pin64] (disk Demo.ready64)) /\
  variant_iteration (L:=Demo.fails64) Demo.gen "A" Demo.pin64_variant
    Demo.ready64
    = (Ok tt,
       mk_world [PrintCreating "pin" Demo.pin64;
                 PrintError (LibraryError "export failed");
                 PrintTraceback (LibraryError "export failed")]
         (disk Demo.ready64)) /\
  FS.files (disk Demo.ready64) !! "notes.txt"%string = Some [Byte.x00] /\
  FS.files (disk (snd (variant_iteration (L:=Demo.libs64) Demo.gen "A"
                         Demo.pin64_variant Demo.ready64)))
    !! "notes.txt"%string = Some [Byte.x00].
Proof.
  destruct (variant_failures_are_contained (L:=Demo.fails64) Demo.gen "A"
              Demo.ready64) as (Hcatch & _).
  destruct (variant_failures_are_contained (L:=Demo.libs64) Demo.gen "A"
              Demo.ready64) as (_ & Hkeep & _).
  split; [vm_compute; reflexivity|].
  split.
  { apply (Hcatch Demo.pin64_variant (LibraryError "export failed")
             (mk_world [PrintCreating "pin" Demo.pin64] (disk Demo.ready64))).
    vm_compute. reflexivity. }
  split; [vm_compute; reflexivity|].
  apply (Hkeep Demo.pin64_variant); [vm_compute; reflexivity|].
  vm_compute. discriminate.
Defined.

Lemma output_path_layout_witness :
  Demo.pin64_variant ∈ VARIANTS (R:=spec_float) /\
  Sample.magnet64_variant ∈ VARIANTS (R:=spec_float) /\
  FS.has_slash "A" = false /\ FS.has_slash "B" = false /\
  letter_filename "A" "pin" = "Letter_A_pin.stl"%string /\
  letter_filename "B" "magnet" = "Letter_B_magnet.stl"%string /\
  output_file Demo.gen "A" "pin" =
    FS.mk_path false
      ["Centria_3D_Models"; "Letters_Library"; "pin"; "Letter_A_pin.stl"]%string /\
  output_file Demo.gen "B" "magnet" =
    FS.mk_path false
      ["Centria_3D_Models"; "Letters_Library"; "magnet";
       "Letter_B_magnet.stl"]%string /\
  FS.str (output_file Demo.gen "A" "pin")
    = "Centria_3D_Models/Letters_Library/pin/Letter_A_pin.stl"%string /\
  FS.str (output_file Demo.gen "B" "magnet")
    = "Centria_3D_Models/Letters_Library/magnet/Letter_B_magnet.stl"%string /\
  FS.files (disk (snd (variant_try (L:=Demo.libs64) Demo.gen "A" "pin"
                         Demo.pin64_variant.2 Demo.ready64)))
    !! "Centria_3D_Models/Letters_Library/pin/Letter_A_pin.stl"%string
    = Some (repeat Byte.x00 8) /\
  String.prefix "//" default_output_dir = false /\
  FS.is_dir
    (disk (snd (__init__ (R:=spec_float) default_output_dir default_font_size
                  Demo.start)))
    (FS.join (FS.FilePath default_output_dir) "pin") = true.
Proof.
  destruct (output_path_layout (L:=Demo.libs64) Demo.gen "A"
              Demo.pin64_variant Demo.ready64)
    as (Hname & Hparts & Hstr & Hwrite & _ & Hinit).
  { apply list_elem_of_here. }
  { reflexivity. }
  destruct (output_path_layout (L:=Demo.libs64) Demo.gen "B"
              Sample.magnet64_variant Demo.ready64)
    as (Hname' & Hparts' & Hstr' & _).
  { apply list_elem_of_further, list_elem_of_here. }
  { reflexivity. }
  split; [apply list_elem_of_here|].
  split; [apply list_elem_of_further, list_elem_of_here|].
  split; [reflexivity|]. split; [reflexivity|].
  split; [exact Hname|]. split; [exact Hname'|].
  split; [exact Hparts|]. split; [exact Hparts'|].
  split; [apply Hstr; reflexivity|]. split; [apply Hstr'; reflexivity|].
  split; [|split; [reflexivity|]].
  - pose proof (Hwrite Sample.pin_mesh64 (repeat Byte.x00 8)) as Hrun.
    change (Demo.pin64_variant.1) with "pin"%string in Hrun.
    rewrite Hrun; [apply lookup_insert_eq|vm_compute; reflexivity..].
  - destruct (__init__ (R:=spec_float) default_output_dir default_font_size
                Demo.start) as [[g|e] w1] eqn:E.
    + apply (Hinit default_output_dir default_font_size Demo.start g w1);
        [reflexivity|exact E].
    + vm_compute in E. discriminate E.
Defined.

Lemma geometry_is_reproducible_witness :
  Demo.inked = Demo.inked /\
  _extract_contour (L:=Demo.libs64) Demo.inked
    = _extract_contour (L:=Demo.libs64) Demo.inked /\
  Demo.outline64 = Demo.outline64 /\ Demo.pin64 = Demo.pin64 /\
  extrude_arrays Demo.outline64 Demo.pin64
    = extrude_arrays Demo.outline64 Demo.pin64 /\
  _extrude_contour (L:=Demo.libs64) Demo.outline64 Demo.pin64
    = _extrude_contour (L:=Demo.libs64) Demo.outline64 Demo.pin64 /\
  disk (snd (generate_letter_variants (L:=Demo.libs64) Demo.gen "A"
               (snd (generate_letter_variants (L:=Demo.libs64) Demo.gen "A"
                       Demo.ready64))))
    = disk (snd (generate_letter_variants (L:=Demo.libs64) Demo.gen "A"
                   Demo.ready64)).
Proof.
  destruct (geometry_is_reproducible (L:=Demo.libs64) Demo.gen "A")
    as (Hmask & Harr & _ & Hdisk).
  split; [reflexivity|]. split; [apply Hmask; reflexivity|].
  split; [reflexivity|]. split; [reflexivity|].
  destruct (Harr Demo.outline64 Demo.outline64 Demo.pin64 Demo.pin64
              eq_refl eq_refl) as [Ha Hm].
  split; [exact Ha|]. split; [exact Hm|]. apply Hdisk.
Defined.

(** Letter A in variant pin, from an empty disk: [__init__] creates the
    directories and the loop leaves the four files of the letter. *)
Example letter_A_files :
  (fun r => (fst r, map fst (map_to_list (FS.files (disk (snd r))))))
    (bind (__init__ (R:=spec_float) default_output_dir default_font_size)
       (fun self => generate_letter_variants (L:=Demo.libs64) self "A")
       Demo.start)
  = (Ok tt,
     ["Centria_3D_Models/Letters_Library/keyring/Letter_A_keyring.stl";
      "Centria_3D_Models/Letters_Library/cake_mould/Letter_A_cake_mould.stl";
      "Centria_3D_Models/Letters_Library/magnet/Letter_A_magnet.stl";
      "Centria_3D_Models/Letters_Library/pin/Letter_A_pin.stl"]%string).
Proof. vm_compute. reflexivity. Qed.

Lemma extrude_vertex_count_witness :
  3 <= length Sample.closed64 /\
  exists a coords,
    extrude_arrays Sample.closed64 Demo.pin64 = Ok a /\
    normalize Sample.closed64 = Some coords /\
    vertices a = ring (of_Z 0) coords ++ ring Demo.pin64 coords /\
    length (vertices a) = 2 * length Sample.closed64 /\
    (forall mesh_obj,
       _extrude_contour (L:=Sample.merging64) Sample.closed64 Demo.pin64
         = Ok mesh_obj ->
       exists constructed repaired,
         Trimesh (Libs:=Sample.merging64) a = Ok constructed /\
         fix_normals (Libs:=Sample.merging64) constructed = Ok repaired /\
         fill_holes (Libs:=Sample.merging64) repaired = Ok mesh_obj).
Proof.
  split; [simpl; lia|].
  destruct (extrude_vertex_count (L:=Sample.merging64) Sample.closed64
              Demo.pin64)
    as (a & coords & Ha & Hc & Hv & _ & _ & Hlen & _ & Hmesh);
    [simpl; lia|].
  exists a, coords. by do 4 (split; [done|]).
Defined.

(** C1 as stated fails when the mesh constructor merges coincident
    vertices, as [trimesh.Trimesh] does by default (line 190 passes no
    [process=False]).  The closed contour (0,0), (0,8), (6,8), (6,0),
    (0,0) has n = 5 points, its last the same as its first; the vertex
    array has 10 rows, and the mesh of a merging constructor has 8
    vertices, not 2n = 10. *)
Lemma merged_mesh_has_fewer_vertices :
  3 <= length Sample.closed64 /\
  length Sample.closed64 = 5 /\
  exists a mesh_obj,
    extrude_arrays Sample.closed64 Demo.pin64 = Ok a /\
    length (vertices a) = 10 /\
    _extrude_contour (L:=Sample.merging64) Sample.closed64 Demo.pin64
      = Ok mesh_obj /\
    n_vertices (Libs:=Sample.merging64) mesh_obj = 8 /\
    n_vertices (Libs:=Sample.merging64) mesh_obj
      <> 2 * length Sample.closed64.
Proof.
  split; [simpl; lia|]. split; [reflexivity|].
  eexists _, _. split; [vm_compute; reflexivity|].
  split; [reflexivity|]. split; [vm_compute; reflexivity|].
  split; [reflexivity|]. vm_compute. discriminate.
Qed.

(** * Further properties of the code *)

(** ** The surface of the solid *)

(** Proves a disjunction of linear facts by trying its disjuncts in
    turn. *)
Ltac pick_disjunct :=
  lazymatch goal with
  | |- _ \/ _ => first [ solve [left; lia] | right; pick_disjunct ]
  | |- _ => solve [lia]
  end.

(** The same after a case distinction on [x = y]. *)
Ltac pick_disjunct_at x y :=
  destruct (decide (x = y)); pick_disjunct.

(** Splits an [is_edge] hypothesis into its cases. *)
Ltac edge_cases H :=
  unfold is_edge in H;
  repeat match type of H with _ \/ _ => destruct H as [H|H] end.

Section Surface.
Implicit Types (n : nat) (f g : face) (e : nat * nat).

Lemma build_faces_kind n f : f ∈ build_faces n <-> face_kind n f.
Proof.
  unfold build_faces, side_faces, closing_faces, bottom_faces, top_faces.
  rewrite !elem_of_app, !list_elem_of_In, in_flat_map, !in_map_iff.
  setoid_rewrite in_seq. split.
  - intros [(i & Hi & Hf)|[Hf|[(i & <- & Hi)|(i & <- & Hi)]]].
    + simpl in Hf. destruct Hf as [<-|[<-|[]]]; constructor; lia.
    + simpl in Hf. destruct Hf as [<-|[<-|[]]]; constructor.
    + constructor; lia.
    + constructor; lia.
  - intros [i Hi|i Hi| | |i Hi|i Hi].
    + left. exists i. split; [lia|]. simpl. auto.
    + left. exists i. split; [lia|]. simpl. auto.
    + right. left. simpl. auto.
    + right. left. simpl. auto.
    + right. right. left. exists i. split; [done|lia].
    + right. right. right. exists i. split; [done|lia].
Qed.

Lemma face_edges_elem f a b :
  (a, b) ∈ face_edges f <->
  (a = f.1.1 /\ b = f.1.2) \/ (a = f.1.2 /\ b = f.2) \/ (a = f.2 /\ b = f.1.1).
Proof.
  unfold face_edges. rewrite !elem_of_cons, elem_of_nil.
  split.
  - intros [[= -> ->]|[[= -> ->]|[[= -> ->]|[]]]]; auto.
  - intros [[-> ->]|[[-> ->]|[-> ->]]]; auto.
Qed.

Lemma directed_edges_elem (fs : list face) a b :
  (a, b) ∈ directed_edges fs <-> exists f, f ∈ fs /\ (a, b) ∈ face_edges f.
Proof.
  unfold directed_edges. rewrite list_elem_of_In, in_flat_map.
  split; intros (f & Hf & He); exists f.
  - by rewrite !list_elem_of_In.
  - by rewrite <- !list_elem_of_In.
Qed.

Lemma edge_of_face n f a b :
  3 <= n -> face_kind n f -> (a, b) ∈ face_edges f -> is_edge n a b.
Proof.
  intros Hn Hf He. apply face_edges_elem in He.
  unfold is_edge.
  destruct Hf; cbn [fst snd] in He; destruct He as [He|[He|He]];
    pick_disjunct.
Qed.

Lemma face_of_edge n a b :
  3 <= n -> is_edge n a b ->
  exists f, face_kind n f /\ (a, b) ∈ face_edges f.
Proof.
  intros Hn He.
  assert (forall f, face_kind n f ->
            ((a = f.1.1 /\ b = f.1.2) \/ (a = f.1.2 /\ b = f.2)
             \/ (a = f.2 /\ b = f.1.1)) ->
            exists f, face_kind n f /\ (a, b) ∈ face_edges f) as Hex.
  { intros f Hf Hab. exists f. split; [done|]. by apply face_edges_elem. }
  edge_cases He; rename He into H.
  - apply (Hex _ (wall_lower n a ltac:(lia))). cbn. lia.
  - apply (Hex _ (wall_lower n (a - 1) ltac:(lia))). cbn. lia.
  - apply (Hex _ (wall_lower n b ltac:(lia))). cbn. lia.
  - apply (Hex _ (wall_upper n a ltac:(lia))). cbn. lia.
  - apply (Hex _ (wall_upper n (b - n) ltac:(lia))). cbn. lia.
  - apply (Hex _ (wall_upper n b ltac:(lia))). cbn. lia.
  - apply (Hex _ (close_lower n)). cbn. lia.
  - apply (Hex _ (close_lower n)). cbn. lia.
  - apply (Hex _ (close_lower n)). cbn. lia.
  - apply (Hex _ (close_upper n)). cbn. lia.
  - apply (Hex _ (close_upper n)). cbn. lia.
  - apply (Hex _ (close_upper n)). cbn. lia.
  - apply (Hex _ (bottom_fan n (b - 1) ltac:(lia))). cbn. lia.
  - apply (Hex _ (bottom_fan n b ltac:(lia))). cbn. lia.
  - apply (Hex _ (bottom_fan n a ltac:(lia))). cbn. lia.
  - apply (Hex _ (top_fan n (b - n) ltac:(lia))). cbn. lia.
  - apply (Hex _ (top_fan n (a - n) ltac:(lia))). cbn. lia.
  - apply (Hex _ (top_fan n (a - n - 1) ltac:(lia))). cbn. lia.
Qed.

Lemma directed_edges_is_edge n a b :
  3 <= n -> (a, b) ∈ directed_edges (build_faces n) <-> is_edge n a b.
Proof.
  intros Hn. rewrite directed_edges_elem. split.
  - intros (f & Hf & He). apply build_faces_kind in Hf.
    by eapply edge_of_face.
  - intros He. destruct (face_of_edge n a b Hn He) as (f & Hf & Hab).
    exists f. by rewrite build_faces_kind.
Qed.

Lemma is_edge_sym n a b : 3 <= n -> is_edge n a b -> is_edge n b a.
Proof.
  intros Hn He. edge_cases He; unfold is_edge;
    first [ pick_disjunct
          | pick_disjunct_at a 0 | pick_disjunct_at b 0
          | pick_disjunct_at a 1 | pick_disjunct_at b 1
          | pick_disjunct_at a (n - 1) | pick_disjunct_at b (n - 1)
          | pick_disjunct_at a n | pick_disjunct_at b n
          | pick_disjunct_at a (n + 1) | pick_disjunct_at b (n + 1)
          | pick_disjunct_at a (2 * n - 1) | pick_disjunct_at b (2 * n - 1) ].
Qed.

Lemma is_edge_irrefl n a b : 3 <= n -> is_edge n a b -> a <> b.
Proof. intros Hn He. edge_cases He; lia. Qed.

(** Two faces with a directed edge in common are the same face. *)
Lemma face_of_edge_unique n f g a b :
  3 <= n -> face_kind n f -> face_kind n g ->
  (a, b) ∈ face_edges f -> (a, b) ∈ face_edges g -> f = g.
Proof.
  intros Hn Hf Hg Ha Hb.
  apply face_edges_elem in Ha. apply face_edges_elem in Hb.
  destruct Hf, Hg; cbn [fst snd] in Ha, Hb;
    try (exfalso; lia); repeat f_equal; lia.
Qed.

Lemma NoDup_flat_map {A B} (f : A -> list B) (l : list A) :
  NoDup l ->
  (forall x, x ∈ l -> NoDup (f x)) ->
  (forall x y b, x ∈ l -> y ∈ l -> b ∈ f x -> b ∈ f y -> x = y) ->
  NoDup (flat_map f l).
Proof.
  induction 1 as [|x l Hx Hl IH]; intros Hf Hdisj; simpl; [constructor|].
  apply NoDup_app. split; [apply Hf, list_elem_of_here|]. split.
  - intros b Hb Hin. apply list_elem_of_In, in_flat_map in Hin as (y & Hy & Hby).
    apply list_elem_of_In in Hy, Hby.
    assert (x = y) as -> by
      (eapply Hdisj; [apply list_elem_of_here|by apply list_elem_of_further|done..]).
    done.
  - apply IH.
    + intros y Hy. by apply Hf, list_elem_of_further.
    + intros y z b Hy Hz. apply Hdisj; by apply list_elem_of_further.
Qed.

Lemma build_faces_NoDup n : 3 <= n -> NoDup (build_faces n).
Proof.
  intros Hn. unfold build_faces, side_faces, closing_faces, bottom_faces,
    top_faces.
  repeat (apply NoDup_app; split; [|split]).
  - apply NoDup_flat_map; [apply NoDup_seq| |].
    + intros i _. repeat constructor; rewrite ?elem_of_cons, ?elem_of_nil.
      * intros [[=]|[]]. lia.
      * intros [].
    + intros i j f _ _. rewrite !elem_of_cons, !elem_of_nil.
      intros [->|[->|[]]] [[=]|[[=]|[]]]; lia.
  - intros f Hf. apply list_elem_of_In, in_flat_map in Hf as (i & Hi & Hf).
    apply in_seq in Hi. simpl in Hf.
    rewrite !elem_of_app, !list_elem_of_In, !in_map_iff.
    setoid_rewrite in_seq. simpl.
    destruct Hf as [<-|[<-|[]]];
      intros [[[=]|[[=]|[]]]|[(j & [=] & Hj)|(j & [=] & Hj)]]; lia.
  - repeat constructor; rewrite ?elem_of_cons, ?elem_of_nil.
    + intros [[=]|[]]. lia.
    + intros [].
  - intros f. rewrite !elem_of_cons, elem_of_nil,
      !elem_of_app, !list_elem_of_In, !in_map_iff.
    setoid_rewrite in_seq.
    intros [->|[->|[]]] [(j & [=] & Hj)|(j & [=] & Hj)]; lia.
  - apply NoDup_fmap_2; [|apply NoDup_seq]. by intros i j [=].
  - intros f. rewrite !list_elem_of_In, !in_map_iff. setoid_rewrite in_seq.
    intros (i & <- & Hi) (j & [=] & Hj). lia.
  - apply NoDup_fmap_2; [|apply NoDup_seq]. intros i j [=]. lia.
Qed.

(** No face is degenerate: its three indices differ. *)
Lemma face_kind_distinct n f :
  3 <= n -> face_kind n f ->
  f.1.1 <> f.1.2 /\ f.1.2 <> f.2 /\ f.2 <> f.1.1.
Proof. intros Hn Hf. destruct Hf; cbn [fst snd]; lia. Qed.

Lemma face_edges_NoDup n f : 3 <= n -> face_kind n f -> NoDup (face_edges f).
Proof.
  intros Hn Hf. destruct (face_kind_distinct n f Hn Hf) as (H1 & H2 & H3).
  destruct f as [[a b] c]. unfold face_edges. cbn [fst snd] in *.
  repeat constructor; rewrite ?elem_of_cons, ?elem_of_nil.
  - intros [[= ? ?]|[[= ? ?]|[]]]; congruence.
  - intros [[= ? ?]|[]]. congruence.
  - intros [].
Qed.

Lemma directed_edges_NoDup n :
  3 <= n -> NoDup (directed_edges (build_faces n)).
Proof.
  intros Hn. unfold directed_edges. apply NoDup_flat_map.
  - by apply build_faces_NoDup.
  - intros f Hf. apply (face_edges_NoDup n); [done|]. by apply build_faces_kind.
  - intros f g [a b] Hf Hg. apply build_faces_kind in Hf, Hg.
    by apply (face_of_edge_unique n).
Qed.
End Surface.

Section SurfaceClaims.
Context {R : Type} {SR : Scalar R}.
Implicit Types (pts : list (R * R)) (height : R).

Lemma directed_edges_length (fs : list face) :
  length (directed_edges fs) = 3 * length fs.
Proof. unfold directed_edges. by apply flat_map_length_const. Qed.

(** Every vertex index is used by a wall face. *)
Lemma vertex_in_face n i :
  3 <= n -> i < 2 * n ->
  exists f, face_kind n f /\ (i = f.1.1 \/ i = f.1.2 \/ i = f.2).
Proof.
  intros Hn Hi.
  destruct (decide (i < n - 1)) as [Hlow|Hlow].
  { exists (i, i + 1, i + 1 + n). split; [by constructor|]. cbn. lia. }
  destruct (decide (i = n - 1)) as [->|Hne].
  { exists (n - 1, 0, n). split; [constructor|]. cbn. lia. }
  destruct (decide (i = n)) as [->|Hnn].
  { exists (n - 1, 0, n). split; [constructor|]. cbn. lia. }
  exists (i - n - 1, i - n - 1 + 1, i - n - 1 + 1 + n).
  split; [constructor; lia|]. cbn. lia.
Qed.

(** X1.  The surface the extrusion routine builds is closed and
    consistently oriented. For a contour of n >= 3 points, no directed
    side occurs twice in the face array, no side joins a vertex to itself,
    and the reverse of every side of a face is a side of a face as well:
    every edge lies on exactly two triangles, which run along it in
    opposite directions, so the array has no hole before the repair pass. *)
Theorem extrude_closed_surface pts height :
  3 <= length pts ->
  exists a,
    extrude_arrays pts height = Ok a /\
    NoDup (directed_edges (faces a)) /\
    (forall u v, (u, v) ∈ directed_edges (faces a) ->
       (v, u) ∈ directed_edges (faces a) /\ u <> v) /\
    length (directed_edges (faces a)) = 2 * (6 * length pts - 6).
Proof.
  intros Hn.
  destruct (extrude_arrays_Ok pts height ltac:(lia)) as (m & Hm & Ha).
  cbv zeta in Ha. eexists. split; [exact Ha|]. cbn [faces].
  split; [by apply directed_edges_NoDup|]. split.
  - intros u v Huv. apply directed_edges_is_edge in Huv; [|done].
    split; [|by eapply is_edge_irrefl].
    apply directed_edges_is_edge; [done|]. by apply is_edge_sym.
  - rewrite directed_edges_length, build_faces_length by lia. lia.
Qed.

(** X2.  The face array of a contour of n >= 3 points has no repeated face
    and no degenerate one (the three indices of a face differ), every row
    of the vertex array is a corner of some face, and the counts of
    vertices, edges and faces satisfy V - E + F = 2, with E half the
    number of directed sides. *)
Theorem extrude_faces_cover_vertices pts height :
  3 <= length pts ->
  exists a,
    extrude_arrays pts height = Ok a /\
    NoDup (faces a) /\
    (forall f, f ∈ faces a ->
       f.1.1 <> f.1.2 /\ f.1.2 <> f.2 /\ f.2 <> f.1.1) /\
    (forall i, i < length (vertices a) ->
       exists f, f ∈ faces a /\ (i = f.1.1 \/ i = f.1.2 \/ i = f.2)) /\
    length (vertices a) + length (faces a)
      = length (directed_edges (faces a)) / 2 + 2.
Proof.
  intros Hn.
  destruct (extrude_arrays_Ok pts height ltac:(lia)) as (m & Hm & Ha).
  cbv zeta in Ha. eexists. split; [exact Ha|]. cbn [faces vertices].
  assert (length (ring (of_Z 0) (map (transform_point (mean_axis0 pts) m) pts)
                    ++ ring height (map (transform_point (mean_axis0 pts) m) pts))
          = 2 * length pts) as Hlen.
  { rewrite length_app, !ring_length, !length_map. lia. }
  split; [by apply build_faces_NoDup|]. split; [|split].
  - intros f Hf. apply build_faces_kind in Hf.
    by apply (face_kind_distinct (length pts)).
  - intros i Hi. rewrite Hlen in Hi.
    destruct (vertex_in_face (length pts) i Hn Hi) as (f & Hf & Hif).
    exists f. by rewrite build_faces_kind.
  - rewrite Hlen, directed_edges_length, build_faces_length by lia.
    replace (3 * (4 * length pts - 4)) with ((6 * length pts - 6) * 2) by lia.
    rewrite Nat.div_mul by done. lia.
Qed.
End SurfaceClaims.

Lemma extrude_closed_surface_witness :
  3 <= length Demo.outline64 /\
  exists a,
    extrude_arrays Demo.outline64 Demo.pin64 = Ok a /\
    NoDup (directed_edges (faces a)) /\
    (forall u v, (u, v) ∈ directed_edges (faces a) ->
       (v, u) ∈ directed_edges (faces a) /\ u <> v) /\
    length (directed_edges (faces a)) = 2 * (6 * length Demo.outline64 - 6).
Proof.
  split; [simpl; lia|].
  apply (extrude_closed_surface Demo.outline64 Demo.pin64).
  simpl; lia.
Defined.

Lemma extrude_faces_cover_vertices_witness :
  3 <= length Demo.outline64 /\
  exists a,
    extrude_arrays Demo.outline64 Demo.pin64 = Ok a /\
    NoDup (faces a) /\
    (forall f, f ∈ faces a ->
       f.1.1 <> f.1.2 /\ f.1.2 <> f.2 /\ f.2 <> f.1.1) /\
    (forall i, i < length (vertices a) ->
       exists f, f ∈ faces a /\ (i = f.1.1 \/ i = f.1.2 \/ i = f.2)) /\
    length (vertices a) + length (faces a)
      = length (directed_edges (faces a)) / 2 + 2.
Proof.
  split; [simpl; lia|].
  apply (extrude_faces_cover_vertices Demo.outline64 Demo.pin64).
  simpl; lia.
Defined.

(** ** More on the contour extractor *)

Section ExtractorOrder.
Context {A : Type}.
Implicit Types (l c best : list A) (pre post rest : list (list A)).

Lemma every_nth_sublist step skip l : every_nth step skip l `sublist_of` l.
Proof.
  revert skip. induction l as [|x l IH]; intros skip; cbn [every_nth].
  - constructor.
  - destruct skip as [|k].
    + apply sublist_skip, IH.
    + apply sublist_cons, IH.
Qed.

Lemma simplify_last_index l :
  1 <= length l ->
  pred (length (simplify l)) * contour_step (length l)
  = length l - 1 - (length l - 1) mod contour_step (length l).
Proof.
  intros Hl. rewrite simplify_length.
  pose proof (contour_step_pos (length l)) as Hs.
  set (s := contour_step (length l)) in *.
  replace (length l + s - 1) with ((length l - 1) + 1 * s) by lia.
  rewrite Nat.div_add by lia.
  replace (pred ((length l - 1) / s + 1)) with ((length l - 1) / s) by lia.
  pose proof (Nat.div_mod_eq (length l - 1) s). lia.
Qed.

(** X6.  Downsampling keeps the points in their order, starts at the first
    point of the contour, and ends at the last point whose index is a
    multiple of the stride, so the final point of the contour is kept when
    the stride divides its index. *)
Theorem simplify_keeps_order l :
  1 <= length l ->
  simplify l `sublist_of` l /\
  head (simplify l) = head l /\
  last (simplify l)
    = l !! (length l - 1 - (length l - 1) mod contour_step (length l)) /\
  ((length l - 1) mod contour_step (length l) = 0 ->
     last (simplify l) = last l).
Proof.
  intros Hl.
  assert (last (simplify l)
    = l !! (length l - 1 - (length l - 1) mod contour_step (length l)))
    as Hlast.
  { rewrite last_lookup, simplify_lookup. f_equal.
    by apply simplify_last_index. }
  split; [apply every_nth_sublist|]. split; [|split; [exact Hlast|]].
  - rewrite !head_lookup, simplify_lookup. done.
  - intros Hz. rewrite Hlast, Hz, Nat.sub_0_r, last_lookup. f_equal. lia.
Qed.

Lemma max_by_len_keep best rest :
  Forall (fun c => length c <= length best) rest ->
  max_by_len best rest = best.
Proof.
  induction 1 as [|c rest Hc _ IH]; cbn [max_by_len]; [done|].
  by destruct (Nat.ltb_spec (length best) (length c)); [lia|].
Qed.

Lemma max_by_len_skip best pre c post :
  length best < length c ->
  Forall (fun c' => length c' < length c) pre ->
  Forall (fun c' => length c' <= length c) post ->
  max_by_len best (pre ++ c :: post) = c.
Proof.
  intros Hb Hpre Hpost. revert best Hb.
  induction Hpre as [|p pre Hp _ IH]; intros best Hb; cbn [app max_by_len].
  - destruct (Nat.ltb_spec (length best) (length c)); [|lia].
    by apply max_by_len_keep.
  - destruct (Nat.ltb_spec (length best) (length p)); by apply IH.
Qed.
End ExtractorOrder.

Section RasteriserClaims.
Context {R : Type} {SR : Scalar R} {L : Libs R}.

(** X7.  Among contours of the greatest length the extractor takes the one
    the tracer returned first: when every contour before [c] is shorter
    than [c] and none after it is longer, the result is [c] downsampled. *)
Theorem extract_contour_first_longest mask
    (pre : list (list (R * R))) c post :
  find_contours mask (fdiv (of_Z 1) (of_Z 2)) = Ok (pre ++ c :: post) ->
  Forall (fun c' => length c' < length c) pre ->
  Forall (fun c' => length c' <= length c) post ->
  _extract_contour mask = Ok (simplify c).
Proof.
  intros Hfc Hpre Hpost. unfold _extract_contour. rewrite Hfc.
  destruct Hpre as [|p pre Hp Hpre]; cbn [app].
  - by rewrite max_by_len_keep.
  - by rewrite max_by_len_skip.
Qed.

Lemma first_font_skips (pre post : list string) size :
  Forall (font_fails size) pre ->
  first_font (pre ++ post) size = first_font post size.
Proof.
  induction 1 as [|q pre [e Hq] _ IH]; [done|].
  cbn [app first_font]. by rewrite Hq.
Qed.

(** X8.  The font is the first candidate of the list that loads:
    candidates that fail to load are passed over, whatever they raise, and
    the candidates after the one that loads are not used. When every
    candidate fails the result is that of [ImageFont.load_default()], an
    error included. *)
Theorem font_fallback_order (pre post : list string) font_path size :
  Forall (font_fails size) pre ->
  (forall f, truetype font_path size = Ok f ->
     first_font (pre ++ font_path :: post) size = Ok f) /\
  first_font pre size = load_default.
Proof.
  intros Hpre. split.
  - intros f Hf. rewrite first_font_skips by done.
    cbn [first_font]. by rewrite Hf.
  - rewrite <- (app_nil_r pre). by rewrite first_font_skips.
Qed.

(** X9.  The glyph is drawn where its measured box is centred in the 300
    pixel image: the drawing position is the one of lines 92-93, the
    margins right and left of the box differ by at most one pixel (by one
    when the free width is odd, the extra pixel on the right), likewise
    below and above, and a box that fits the image is placed inside it. *)
Theorem glyph_is_centred (self : generator) letter f b0 b1 b2 b3 :
  first_font font_options (font_size self) = Ok f ->
  textbbox (new_image 300) letter f = Ok (b0, b1, b2, b3) ->
  exists x y,
    glyph_origin 300 (b0, b1, b2, b3) = (x, y) /\
    render_mask self letter =
      match draw_text (new_image 300) (x, y) letter f with
      | Raise e => Raise e
      | Ok image => Ok (threshold (pixels image))
      end /\
    (0 <= (300 - (x + b2)) - (x + b0) <= 1)%Z /\
    (0 <= (300 - (y + b3)) - (y + b1) <= 1)%Z /\
    ((b2 - b0 <= 300)%Z -> (0 <= x + b0 /\ x + b2 <= 300)%Z) /\
    ((b3 - b1 <= 300)%Z -> (0 <= y + b1 /\ y + b3 <= 300)%Z).
Proof.
  intros Hfont Hbox. eexists _, _. split; [reflexivity|].
  split.
  { unfold render_mask. rewrite Hfont. cbv zeta.
    change (new_image 300) with (new_image 300%nat). rewrite Hbox.
    reflexivity. }
  pose proof (Z.div_mod (300 - (b2 - b0)) 2 ltac:(lia)) as Hw.
  pose proof (Z.mod_pos_bound (300 - (b2 - b0)) 2 ltac:(lia)) as Hwm.
  pose proof (Z.div_mod (300 - (b3 - b1)) 2 ltac:(lia)) as Hh.
  pose proof (Z.mod_pos_bound (300 - (b3 - b1)) 2 ltac:(lia)) as Hhm.
  repeat split; lia.
Qed.
End RasteriserClaims.

Lemma simplify_keeps_order_witness :
  1 <= length (seq 0 250) /\
  simplify (seq 0 250) `sublist_of` seq 0 250 /\
  head (simplify (seq 0 250)) = head (seq 0 250) /\
  last (simplify (seq 0 250))
    = seq 0 250 !! (length (seq 0 250) - 1
                    - (length (seq 0 250) - 1)
                        mod contour_step (length (seq 0 250))) /\
  ((length (seq 0 250) - 1) mod contour_step (length (seq 0 250)) = 0 ->
     last (simplify (seq 0 250)) = last (seq 0 250)).
Proof.
  split; [rewrite length_seq; lia|].
  apply (simplify_keeps_order (seq 0 250)). rewrite length_seq; lia.
Defined.

(** A contour of 250 points is sampled with stride 2 and loses its final
    point. *)
Example simplify_250_last :
  last (simplify (seq 0 250)) = Some 248 /\ last (seq 0 250) = Some 249.
Proof. vm_compute. done. Qed.

Lemma extract_contour_first_longest_witness :
  find_contours (Libs:=Sample.libs64) Demo.inked (fdiv (of_Z 1) (of_Z 2))
    = Ok ([Sample.stroke64] ++ Demo.outline64 :: [rev Demo.outline64]) /\
  Forall (fun c' => length c' < length Demo.outline64) [Sample.stroke64] /\
  Forall (fun c' => length c' <= length Demo.outline64)
    [rev Demo.outline64] /\
  _extract_contour (L:=Sample.libs64) Demo.inked
    = Ok (simplify Demo.outline64).
Proof.
  assert (Forall (fun c' : list (spec_float * spec_float) =>
                    length c' < length Demo.outline64) [Sample.stroke64])
    as Hpre by (repeat constructor).
  assert (Forall (fun c' : list (spec_float * spec_float) =>
                    length c' <= length Demo.outline64) [rev Demo.outline64])
    as Hpost by (repeat constructor).
  split; [reflexivity|]. split; [exact Hpre|]. split; [exact Hpost|].
  apply (extract_contour_first_longest (L:=Sample.libs64) Demo.inked
           [Sample.stroke64] Demo.outline64 [rev Demo.outline64]);
    [reflexivity|exact Hpre|exact Hpost].
Defined.

Lemma font_fallback_order_witness :
  Forall (font_fails (L:=Sample.libs64) 200)
    ["arial.ttf"; "Arial Bold.ttf"]%string /\
  (forall f, truetype (Libs:=Sample.libs64) "arialbd.ttf" 200 = Ok f ->
     first_font (L:=Sample.libs64) font_options 200 = Ok f) /\
  first_font (L:=Sample.libs64) ["arial.ttf"; "Arial Bold.ttf"]%string 200
    = load_default.
Proof.
  assert (Forall (font_fails (L:=Sample.libs64) 200)
            ["arial.ttf"; "Arial Bold.ttf"]%string) as Hpre.
  { repeat constructor; eexists; reflexivity. }
  split; [exact Hpre|].
  apply (font_fallback_order (L:=Sample.libs64)
           ["arial.ttf"; "Arial Bold.ttf"]%string
           ["C:/Windows/Fonts/arialbd.ttf"; "C:/Windows/Fonts/arial.ttf"]%string
           "arialbd.ttf" 200 Hpre).
Defined.

Lemma glyph_is_centred_witness :
  first_font (L:=Sample.libs64) font_options (font_size Demo.gen)
    = Ok "arialbd.ttf"%string /\
  textbbox (Libs:=Sample.libs64) (new_image 300) "A" "arialbd.ttf"%string
    = Ok (7, 43, 140, 186)%Z /\
  exists x y,
    glyph_origin 300 (7, 43, 140, 186)%Z = (x, y) /\
    render_mask (L:=Sample.libs64) Demo.gen "A" =
      match draw_text (Libs:=Sample.libs64) (new_image 300) (x, y) "A"
              "arialbd.ttf"%string with
      | Raise e => Raise e
      | Ok image => Ok (threshold (pixels image))
      end /\
    (0 <= (300 - (x + 140)) - (x + 7) <= 1)%Z /\
    (0 <= (300 - (y + 186)) - (y + 43) <= 1)%Z /\
    ((140 - 7 <= 300)%Z -> (0 <= x + 7 /\ x + 140 <= 300)%Z) /\
    ((186 - 43 <= 300)%Z -> (0 <= y + 43 /\ y + 186 <= 300)%Z).
Proof.
  split; [reflexivity|]. split; [reflexivity|].
  apply (glyph_is_centred (L:=Sample.libs64) Demo.gen "A"
           "arialbd.ttf"%string 7 43 140 186); reflexivity.
Defined.

(** The box of width 133 gets 83 free pixels on its left and 84 on its
    right. *)
Example glyph_origin_odd_width :
  glyph_origin 300 (7, 43, 140, 186)%Z = (76, 35)%Z.
Proof. reflexivity. Qed.

(** ** Setting up the output directories *)

Section SetupFacts.
Context {R : Type} {SR : Scalar R} {L : Libs R}.
Implicit Types (p : FS.path) (fs : FS.state) (w : world R).

(** With [exist_ok=True] the creation of a directory that exists does
    nothing. *)
Lemma mkdir_existing parents p fs :
  FS.is_dir fs p = true -> FS.mkdir parents true p fs = (Ok tt, fs).
Proof.
  intros Hd. unfold FS.mkdir. destruct parents.
  - assert (FS.mk_path (FS.anchored p) (rev (rev (FS.parts p))) = p) as Hp.
    { rewrite rev_involutive. by destruct p. }
    destruct (rev (FS.parts p)) as [|x rp]; cbn [FS.mkdir_parents];
      rewrite Hp; unfold FS.os_mkdir; rewrite Hd; cbn [orb andb]; done.
  - unfold FS.mkdir_flat, FS.os_mkdir. rewrite Hd. cbn [orb andb]. done.
Qed.

Lemma init_loop_existing (od : FS.path) (names : list string) w :
  (forall name, name ∈ names -> FS.is_dir (disk w) (FS.join od name) = true) ->
  for_each names
    (fun variant => on_disk (FS.mkdir false true (FS.join od variant))) w
    = (Ok tt, w).
Proof.
  intros Hall. induction names as [|x names IH]; [done|].
  cbn [for_each]. unfold bind at 1. unfold on_disk at 1.
  rewrite mkdir_existing by apply Hall, list_elem_of_here.
  destruct w as [c d]. cbn [console disk] in *.
  apply IH. intros name Hn. by apply Hall, list_elem_of_further.
Qed.

Lemma init_run output_dir font_size w g w' :
  __init__ output_dir font_size w = (Ok g, w') ->
  g = mk_generator (FS.FilePath output_dir) font_size /\
  console w' = console w /\
  FS.is_dir (disk w') (FS.FilePath output_dir) = true /\
  (forall name, name ∈ map fst (VARIANTS (R:=R)) ->
     FS.is_dir (disk w') (FS.join (FS.FilePath output_dir) name) = true) /\
  FS.dirs (disk w) ⊆ FS.dirs (disk w') /\
  FS.files (disk w') = FS.files (disk w).
Proof.
  unfold __init__, bind, ret. unfold on_disk at 1.
  destruct (FS.mkdir true true (FS.FilePath output_dir) (disk w))
    as [[[]|e] fs1] eqn:E1; [|done].
  destruct (for_each _ _ _) as [[[]|e] w2] eqn:E2; [|done].
  intros [= <- <-]. split; [done|].
  apply mkdir_Ok in E1 as (Hod & Hsub1 & Hfiles1).
  assert (console w2 = console w /\ FS.files (disk w2) = FS.files fs1)
    as [Hc Hf].
  { assert (forall names w1,
      for_each names
        (fun variant : string =>
           on_disk (FS.mkdir false true
                      (FS.join (FS.FilePath output_dir) variant))) w1
        = (Ok (), w2) ->
      console w2 = console w1 /\ FS.files (disk w2) = FS.files (disk w1))
      as Hloop.
    { induction names as [|x names IH]; intros w1.
      - by intros [= <-].
      - cbn [for_each]. unfold bind at 1. unfold on_disk at 1.
        destruct (FS.mkdir false true _ (disk w1)) as [[[]|e] fs2] eqn:E;
          [|done].
        intros Hrest. apply IH in Hrest as [Hc Hf]. cbn [console disk] in *.
        apply mkdir_Ok in E as (_ & _ & Hfiles). split; congruence. }
    destruct (Hloop _ _ E2) as [Hc Hf]. by split. }
  apply init_loop_Ok in E2 as [Hsub2 Hall]. cbn [disk] in Hsub2.
  split; [done|]. split.
  { unfold FS.is_dir in *. by eapply dir_present_mono. }
  split; [exact Hall|]. split; [set_solver|congruence].
Qed.
End SetupFacts.

Section SetupClaims.
Context {R : Type} {SR : Scalar R} {L : Libs R}.
Implicit Types (w : world R).

(** X10.  [__init__] only adds directories, and doing it again changes
    nothing: when it returns, it has printed nothing, has left every file
    and every directory that existed in place, and a second call on the
    resulting disk returns the same generator and leaves that disk as it
    is. *)
Theorem init_is_idempotent output_dir font_size w g w' :
  __init__ output_dir font_size w = (Ok g, w') ->
  __init__ output_dir font_size w' = (Ok g, w') /\
  console w' = console w /\
  FS.dirs (disk w) ⊆ FS.dirs (disk w') /\
  FS.files (disk w') = FS.files (disk w).
Proof.
  intros Hrun.
  destruct (init_run _ _ _ _ _ Hrun) as (-> & Hc & Hod & Hall & Hsub & Hf).
  split; [|done].
  unfold __init__, bind, ret. unfold on_disk at 1.
  rewrite mkdir_existing by done.
  replace (mk_world (console w') (disk w')) with w' by by destruct w'.
  by rewrite init_loop_existing.
Qed.

(** A regular file in the place of the output directory stops
    [__init__] at its first statement. *)
Lemma init_on_regular_file output_dir font_size w :
  FS.is_file (disk w) (FS.FilePath output_dir) = true ->
  FS.is_dir (disk w) (FS.FilePath output_dir) = false ->
  __init__ output_dir font_size w
    = (Raise (FileExistsError (FS.str (FS.FilePath output_dir))), w).
Proof.
  intros Hfile Hdir. unfold __init__, bind. unfold on_disk at 1.
  unfold FS.mkdir.
  assert (FS.mk_path (FS.anchored (FS.FilePath output_dir))
            (rev (rev (FS.parts (FS.FilePath output_dir))))
          = FS.FilePath output_dir) as Hp.
  { rewrite rev_involutive. by destruct (FS.FilePath output_dir). }
  destruct (rev (FS.parts (FS.FilePath output_dir))) as [|x rp];
    cbn [FS.mkdir_parents]; rewrite Hp; unfold FS.os_mkdir;
    rewrite Hfile, Hdir; cbn [orb andb]; by destruct w.
Qed.
End SetupClaims.

Lemma init_is_idempotent_witness :
  __init__ (R:=spec_float) default_output_dir default_font_size
      Sample.unrelated64
    = (Ok Demo.gen, Demo.ready64) /\
  __init__ (R:=spec_float) default_output_dir default_font_size Demo.ready64
    = (Ok Demo.gen, Demo.ready64) /\
  console Demo.ready64 = console Sample.unrelated64 /\
  FS.dirs (disk Sample.unrelated64) ⊆ FS.dirs (disk Demo.ready64) /\
  FS.files (disk Demo.ready64) = FS.files (disk Sample.unrelated64).
Proof.
  assert (__init__ (R:=spec_float) default_output_dir default_font_size
            Sample.unrelated64 = (Ok Demo.gen, Demo.ready64)) as Hrun.
  { vm_compute. reflexivity. }
  split; [exact Hrun|].
  apply (init_is_idempotent default_output_dir default_font_size
           Sample.unrelated64 Demo.gen Demo.ready64 Hrun).
Defined.

(** ** Directory listings *)

Section ListingFacts.
Implicit Types (s k name pre suffix : string) (d : FS.path) (fs : FS.state)
  (l : list (string * option nat)) (x y : string * option nat).

Lemma append_assoc s1 s2 s3 :
  String.append (String.append s1 s2) s3
  = String.append s1 (String.append s2 s3).
Proof.
  induction s1 as [|c s1 IH]; [done|].
  change (String c (String.append (String.append s1 s2) s3)
          = String c (String.append s1 (String.append s2 s3))).
  by rewrite IH.
Qed.

Lemma strip_prefix_append pre s :
  Listing.strip_prefix pre (String.append pre s) = Some s.
Proof.
  induction pre as [|c pre IH]; simpl; [done|].
  by rewrite Ascii.eqb_refl.
Qed.

Lemma strip_prefix_Some pre k s :
  Listing.strip_prefix pre k = Some s -> k = String.append pre s.
Proof.
  revert k. induction pre as [|c pre IH]; intros k; simpl.
  - by intros [= ->].
  - destruct k as [|c' k]; [done|].
    destruct (Ascii.eqb_spec c c') as [->|]; [|done].
    intros Hk. by rewrite (IH _ Hk).
Qed.

Lemma ends_with_append suffix s :
  Listing.ends_with suffix (String.append s suffix) = true.
Proof.
  induction s as [|c s IH].
  - change (String.append "" suffix) with suffix.
    destruct suffix; cbn [Listing.ends_with]; by rewrite String.eqb_refl.
  - change (String.append (String c s) suffix)
      with (String c (String.append s suffix)).
    cbn [Listing.ends_with]. rewrite IH. apply orb_true_r.
Qed.

Lemma concat_snoc sep (ls : list string) (x : string) :
  ls <> [] ->
  String.concat sep (ls ++ [x])
  = String.append (String.concat sep ls) (String.append sep x).
Proof.
  induction ls as [|a ls IH]; [done|]. intros _.
  destruct ls as [|b ls]; [done|].
  change (String.concat sep ((a :: b :: ls) ++ [x]))
    with (String.append a
            (String.append sep (String.concat sep ((b :: ls) ++ [x])))).
  rewrite IH by done.
  change (String.concat sep (a :: b :: ls))
    with (String.append a (String.append sep (String.concat sep (b :: ls)))).
  by rewrite !append_assoc.
Qed.

(** The path string of an entry of a directory. *)
Lemma str_child d name :
  FS.has_slash name = false -> name <> ""%string -> name <> "."%string ->
  FS.str (FS.join d name) = String.append (Listing.dir_prefix d) name.
Proof.
  intros Hs Hne Hnd. rewrite join_simple by done.
  unfold FS.str, Listing.dir_prefix. cbn [FS.anchored FS.parts].
  destruct d as [anch ps]. cbn [FS.anchored FS.parts].
  destruct ps as [|p ps].
  - destruct anch; done.
  - rewrite concat_snoc by done. unfold FS.str. cbn [FS.anchored FS.parts].
    destruct anch.
    + by rewrite !append_assoc.
    + destruct ((p :: ps) ++ [name]) eqn:E; [done|].
      by rewrite !append_assoc.
Qed.

Lemma ends_with_stl_name name :
  Listing.ends_with ".stl" name = true ->
  name <> ""%string /\ name <> "."%string.
Proof. split; intros ->; discriminate. Qed.

Lemma child_name_spec d k name :
  Listing.child_name d k = Some name <->
  k = String.append (Listing.dir_prefix d) name /\ name <> ""%string /\
  FS.has_slash name = false.
Proof.
  unfold Listing.child_name. split.
  - destruct (Listing.strip_prefix _ k) as [n|] eqn:E; [|done].
    apply strip_prefix_Some in E.
    destruct (String.eqb_spec n ""); [done|].
    destruct (FS.has_slash n) eqn:Hs; [done|].
    cbn [orb]. by intros [= <-].
  - intros (-> & Hne & Hs). rewrite strip_prefix_append, Hs.
    by destruct (String.eqb_spec name "").
Qed.

Lemma entries_elem fs k (n : option nat) :
  (k, n) ∈ Listing.entries fs <->
  (exists c, FS.files fs !! k = Some c /\ n = Some (length c)) \/
  (k ∈ FS.dirs fs /\ n = None).
Proof.
  unfold Listing.entries.
  rewrite elem_of_app, !list_elem_of_In, !in_map_iff. split.
  - intros [([k' c] & [= <- <-] & Hin)|(k' & [= <- <-] & Hin)].
    + left. exists c. split; [|done].
      by apply elem_of_map_to_list, list_elem_of_In.
    + right. split; [|done]. by apply elem_of_elements, list_elem_of_In.
  - intros [(c & Hc & ->)|[Hk ->]].
    + left. exists (k, c). split; [done|].
      by apply list_elem_of_In, elem_of_map_to_list.
    + right. exists k. split; [done|].
      by apply list_elem_of_In, elem_of_elements.
Qed.

(** What [glob('*.stl')] yields. *)
Lemma glob_stl_elem d fs name (n : option nat) :
  (name, n) ∈ Listing.glob_stl d fs <->
  FS.is_dir fs d = true /\ FS.has_slash name = false /\
  Listing.ends_with ".stl" name = true /\
  ((exists c, FS.files fs !! String.append (Listing.dir_prefix d) name = Some c
      /\ n = Some (length c)) \/
   (String.append (Listing.dir_prefix d) name ∈ FS.dirs fs /\ n = None)).
Proof.
  unfold Listing.glob_stl. destruct (FS.is_dir fs d).
  2:{ rewrite elem_of_nil. by split; [|intros [? _]]. }
  rewrite list_elem_of_omap. split.
  - intros ([k n'] & Hin & Hsel). cbn [fst snd] in Hsel.
    destruct (Listing.child_name d k) as [name'|] eqn:Hc; [|done].
    destruct (Listing.ends_with ".stl" name') eqn:He; [|done].
    injection Hsel as <- <-.
    apply child_name_spec in Hc as (-> & Hne & Hs).
    split; [done|]. split; [done|]. split; [done|].
    by apply entries_elem.
  - intros (_ & Hs & He & Hin).
    exists (String.append (Listing.dir_prefix d) name, n).
    split; [by apply entries_elem|]. cbn [fst snd].
    assert (Listing.child_name d (String.append (Listing.dir_prefix d) name)
            = Some name) as ->.
    { apply child_name_spec. split; [done|]. split; [|done].
      by apply ends_with_stl_name. }
    by rewrite He.
Qed.

Lemma insert_by_name_perm x l : Listing.insert_by_name x l ≡ₚ x :: l.
Proof.
  induction l as [|y l IH]; cbn [Listing.insert_by_name]; [done|].
  destruct (String.leb x.1 y.1); [done|].
  rewrite IH. apply Permutation_swap.
Qed.

Lemma sorted_perm l : Listing.sorted l ≡ₚ l.
Proof.
  induction l as [|x l IH]; cbn [Listing.sorted foldr]; [done|].
  rewrite insert_by_name_perm. by constructor.
Qed.

Lemma insert_by_name_sorted x l :
  Sorted Listing.by_name l -> Sorted Listing.by_name (Listing.insert_by_name x l).
Proof.
  induction 1 as [|y l Hl IH Hhd]; cbn [Listing.insert_by_name].
  - by repeat constructor.
  - destruct (String.leb x.1 y.1) eqn:Hxy.
    + by repeat constructor.
    + constructor; [exact IH|].
      assert (Listing.by_name y x) as Hyx.
      { unfold Listing.by_name.
        destruct (String.leb_total x.1 y.1); congruence. }
      destruct Hhd as [|z l' Hyz]; cbn [Listing.insert_by_name].
      * by constructor.
      * destruct (String.leb x.1 z.1); by constructor.
Qed.

Lemma sorted_sorted l : Sorted Listing.by_name (Listing.sorted l).
Proof.
  induction l as [|x l IH]; cbn [Listing.sorted foldr]; [constructor|].
  by apply insert_by_name_sorted.
Qed.
End ListingFacts.

(** ** The batch and its summary *)

Section BatchFacts.
Context {R : Type} {SR : Scalar R} {L : Libs R}.
Implicit Types (self : generator) (letter name : string) (w : world R)
  (v : string * specs R) (s : session R) (letters : list string).

(** One iteration of the variant loop prints its [Creating] line first
    and announces nothing else. *)
Lemma variant_iteration_events self letter v w :
  exists evs,
    variant_iteration self letter v w =
      (Ok tt,
       mk_world (console w ++ PrintCreating v.1 (thickness v.2) :: evs)
         (FS.mk_state (FS.dirs (disk w))
            (apply_write (variant_write self letter v (FS.dirs (disk w)))
               (FS.files (disk w))))) /\
    Forall (fun ev => is_attempt ev = false) evs.
Proof.
  destruct w as [c [ds fl]].
  unfold variant_iteration, variant_try, try_except, bind, print.
  cbn [console disk].
  rewrite create_letter_mesh_run. cbn [console disk].
  unfold variant_write. cbn [FS.dirs FS.files].
  destruct (letter_mesh_value self letter (thickness v.2)) as [[m|]|e];
    [|close_iteration..].
  unfold export, bind, call, on_disk. cbn [console disk].
  destruct (stl_bytes m) as [bytes|e]; [|close_iteration].
  rewrite write_file_run. cbn [FS.dirs FS.files].
  destruct (FS.dir_present ds (output_file self letter v.1));
    [close_iteration|].
  destruct (FS.dir_present ds (FS.parent (output_file self letter v.1)));
    [|close_iteration].
  cbn [console disk]. destruct (FS.stat_size _ _) as [n|e]; close_iteration.
Qed.

Lemma variant_loop_events self letter (vs : list (string * specs R)) w :
  exists evs,
    console (snd (for_each vs (variant_iteration self letter) w))
      = console w ++ evs /\
    List.filter is_attempt evs
      = map (fun v => PrintCreating v.1 (thickness v.2)) vs.
Proof.
  revert w. induction vs as [|v vs IH]; intros w.
  - exists []. by rewrite app_nil_r.
  - destruct (variant_iteration_events self letter v w) as (evs1 & Hrun & Hna).
    cbn [for_each]. unfold bind. rewrite Hrun.
    destruct (IH (mk_world (console w ++ PrintCreating v.1 (thickness v.2) :: evs1)
                   (FS.mk_state (FS.dirs (disk w))
                      (apply_write (variant_write self letter v (FS.dirs (disk w)))
                         (FS.files (disk w))))))
      as (evs2 & Hrest & Hf).
    rewrite Hrest. cbn [console].
    exists (PrintCreating v.1 (thickness v.2) :: evs1 ++ evs2). split.
    + by rewrite <- app_assoc.
    + cbn [List.filter is_attempt map].
      by rewrite List.filter_app, (filter_none _ _ Hna), Hf.
Qed.

Lemma generate_letter_variants_events self letter w :
  exists evs,
    console (snd (generate_letter_variants self letter w))
      = console w ++ evs /\
    List.filter is_attempt evs = attempts [letter].
Proof.
  unfold generate_letter_variants, bind, print.
  destruct (variant_loop_events self letter VARIANTS
              (mk_world (console w ++ [PrintProcessing letter]) (disk w)))
    as (evs & Hc & Hf).
  exists (PrintProcessing letter :: evs). split.
  - rewrite Hc. cbn [console]. by rewrite <- app_assoc.
  - cbn [List.filter is_attempt]. rewrite Hf. unfold attempts.
    cbn [flat_map]. by rewrite app_nil_r.
Qed.

Lemma attempts_cons letter letters :
  attempts (R:=R) (letter :: letters) = attempts [letter] ++ attempts letters.
Proof. unfold attempts. cbn [flat_map]. by rewrite app_nil_r. Qed.

Lemma generate_letters_events self letters w :
  exists evs,
    console (snd (generate_letters self letters w)) = console w ++ evs /\
    List.filter is_attempt evs = attempts letters.
Proof.
  unfold generate_letters. revert w.
  induction letters as [|letter letters IH]; intros w.
  - exists []. by rewrite app_nil_r.
  - cbn [for_each]. unfold bind.
    pose proof (generate_letter_variants_total self letter w) as Hfst.
    destruct (generate_letter_variants_events self letter w)
      as (evs1 & Hc1 & Hf1).
    destruct (generate_letter_variants self letter w) as [r w1].
    cbn [fst snd] in *. subst r.
    destruct (IH w1) as (evs2 & Hc2 & Hf2).
    exists (evs1 ++ evs2). split.
    + by rewrite Hc2, Hc1, <- app_assoc.
    + by rewrite List.filter_app, Hf1, Hf2, attempts_cons.
Qed.

(** A file written during the loops is on the disk at the end. *)
Lemma apply_writes_written (os : list (option (string * FS.content)))
    (fl : gmap string FS.content) q c :
  Some (q, c) ∈ os ->
  is_Some (fold_left (fun fl o => apply_write o fl) os fl !! q).
Proof.
  revert fl. induction os as [|o os IH]; intros fl Hin.
  - by apply elem_of_nil in Hin.
  - cbn [fold_left]. apply elem_of_cons in Hin as [<-|Hin]; [|by apply IH].
    apply apply_writes_keep. cbn [apply_write].
    rewrite lookup_insert_eq. by eexists.
Qed.

Lemma generate_letters_written self letters w letter v q c :
  letter ∈ letters -> v ∈ VARIANTS (R:=R) ->
  variant_write self letter v (FS.dirs (disk w)) = Some (q, c) ->
  is_Some (FS.files (disk (snd (generate_letters self letters w))) !! q).
Proof.
  intros Hl Hv. unfold generate_letters. revert w.
  induction letters as [|x letters IH]; intros w Hw.
  { by apply elem_of_nil in Hl. }
  cbn [for_each]. unfold bind.
  pose proof (generate_letter_variants_total self x w) as Hfst.
  pose proof (generate_letter_variants_disk self x w) as Hdisk.
  destruct (generate_letter_variants self x w) as [r w1].
  cbn [fst snd] in *. subst r.
  apply elem_of_cons in Hl as [->|Hl].
  - destruct (generate_letters_run self letters w1) as (w' & Hrun & _ & Hkeep).
    unfold generate_letters in Hrun. rewrite Hrun. cbn [snd].
    apply Hkeep. rewrite Hdisk. cbn [FS.files].
    apply (apply_writes_written _ _ q c).
    rewrite <- Hw. apply list_elem_of_fmap. by exists v.
  - apply IH; [done|]. rewrite Hdisk. by cbn [FS.dirs].
Qed.

(** The loop over the letters, inside a session. *)
Lemma run_generate_letters self letters s :
  exists evs fs',
    run (generate_letters self letters) s
      = (Ok tt, mk_session (printed s ++ map Progress evs) fs') /\
    List.filter is_attempt evs = attempts letters /\
    FS.dirs fs' = FS.dirs (on_disk_now s) /\
    (forall p, is_Some (FS.files (on_disk_now s) !! p) ->
       is_Some (FS.files fs' !! p)) /\
    (forall letter v q c,
       letter ∈ letters -> v ∈ VARIANTS (R:=R) ->
       variant_write self letter v (FS.dirs (on_disk_now s)) = Some (q, c) ->
       is_Some (FS.files fs' !! q)).
Proof.
  unfold run.
  destruct (generate_letters_run self letters (mk_world [] (on_disk_now s)))
    as (w' & Hrun & Hd & Hkeep).
  destruct (generate_letters_events self letters
              (mk_world [] (on_disk_now s))) as (evs & Hc & Hf).
  pose proof (fun letter v q c Hl Hv =>
                generate_letters_written self letters
                  (mk_world [] (on_disk_now s)) letter v q c Hl Hv) as Hwr.
  rewrite Hrun in *. cbn [snd console disk] in *.
  exists evs, (disk w'). rewrite Hc. done.
Qed.

Lemma batch_run title self letters s :
  exists evs fs',
    batch title letters self s
      = (Ok tt,
         _print_summary self letters
           (mk_session (printed s ++ Banner title :: map Progress evs) fs')) /\
    List.filter is_attempt evs = attempts letters /\
    FS.dirs fs' = FS.dirs (on_disk_now s) /\
    (forall p, is_Some (FS.files (on_disk_now s) !! p) ->
       is_Some (FS.files fs' !! p)) /\
    (forall letter v q c,
       letter ∈ letters -> v ∈ VARIANTS (R:=R) ->
       variant_write self letter v (FS.dirs (on_disk_now s)) = Some (q, c) ->
       is_Some (FS.files fs' !! q)).
Proof.
  unfold batch.
  destruct (run_generate_letters self letters (say [Banner title] s))
    as (evs & fs' & Hrun & Hrest).
  rewrite Hrun. exists evs, fs'. split; [|exact Hrest].
  cbn [say printed]. by rewrite <- app_assoc.
Qed.

Lemma generate_full_alphabet_batch self s :
  generate_full_alphabet self s
  = batch "FULL ALPHABET LIBRARY GENERATOR" FULL_ALPHABET self s.
Proof. reflexivity. Qed.

Lemma generate_centria_letters_batch self s :
  generate_centria_letters self s
  = batch "CENTRIA LETTER LIBRARY GENERATOR" CENTRIA_LETTERS self s.
Proof. reflexivity. Qed.

(** A [Creating] line is an announcement. *)
Lemma filter_creating_attempt (evs : list (event R)) :
  List.filter is_creating evs
  = List.filter is_creating (List.filter is_attempt evs).
Proof.
  induction evs as [|ev evs IH]; [done|].
  destruct ev; cbn [List.filter is_creating is_attempt]; by rewrite ?IH.
Qed.

(** What the summary prints for one variant. *)
Lemma variant_listing_spec self variant_name fs :
  exists entries : list (string * option nat),
    variant_listing (R:=R) self variant_name fs
      = VariantHeader variant_name (length entries)
          :: map listing_line entries /\
    Sorted Listing.by_name entries /\
    (forall name size,
       (name, Some size) ∈ entries <->
       FS.is_dir fs (FS.join (output_dir self) variant_name) = true /\
       FS.has_slash name = false /\ Listing.ends_with ".stl" name = true /\
       exists c,
         FS.files fs
           !! FS.str (FS.join (FS.join (output_dir self) variant_name) name)
           = Some c /\ size = length c) /\
    (forall name,
       (name, None) ∈ entries <->
       FS.is_dir fs (FS.join (output_dir self) variant_name) = true /\
       FS.has_slash name = false /\ Listing.ends_with ".stl" name = true /\
       FS.str (FS.join (FS.join (output_dir self) variant_name) name)
         ∈ FS.dirs fs).
Proof.
  eexists. split; [reflexivity|]. split; [apply sorted_sorted|]. split.
  - intros name size. rewrite sorted_perm, glob_stl_elem. split.
    + intros (Hd & Hs & He & Hin). do 3 (split; [done|]).
      destruct (ends_with_stl_name name He) as [Hne Hnd].
      rewrite str_child by done.
      destruct Hin as [(c & Hc & [= ->])|[_ [=]]]. by exists c.
    + intros (Hd & Hs & He & c & Hc & ->). do 3 (split; [done|]).
      destruct (ends_with_stl_name name He) as [Hne Hnd].
      rewrite str_child in Hc by done. left. by exists c.
  - intros name. rewrite sorted_perm, glob_stl_elem. split.
    + intros (Hd & Hs & He & Hin). do 3 (split; [done|]).
      destruct (ends_with_stl_name name He) as [Hne Hnd].
      rewrite str_child by done.
      by destruct Hin as [(c & _ & [=])|[Hin _]].
    + intros (Hd & Hs & He & Hin). do 3 (split; [done|]).
      destruct (ends_with_stl_name name He) as [Hne Hnd].
      rewrite str_child in Hin by done. by right.
Qed.

Lemma print_summary_spec self letters s v :
  v ∈ VARIANTS (R:=R) ->
  exists before (entries : list (string * option nat)) after,
    printed (_print_summary self letters s)
      = printed s
          ++ SummaryHeader (output_dir self) (String.concat ", " letters)
               (4 * length letters)
          :: before
          ++ VariantHeader v.1 (length entries)
          :: map listing_line entries ++ after /\
    on_disk_now (_print_summary self letters s) = on_disk_now s /\
    Sorted Listing.by_name entries /\
    (forall name size,
       (name, Some size) ∈ entries <->
       FS.is_dir (on_disk_now s) (FS.join (output_dir self) v.1) = true /\
       FS.has_slash name = false /\ Listing.ends_with ".stl" name = true /\
       exists c,
         FS.files (on_disk_now s)
           !! FS.str (FS.join (FS.join (output_dir self) v.1) name)
           = Some c /\ size = length c) /\
    (forall name,
       (name, None) ∈ entries <->
       FS.is_dir (on_disk_now s) (FS.join (output_dir self) v.1) = true /\
       FS.has_slash name = false /\ Listing.ends_with ".stl" name = true /\
       FS.str (FS.join (FS.join (output_dir self) v.1) name)
         ∈ FS.dirs (on_disk_now s)).
Proof.
  intros Hv. apply list_elem_of_split in Hv as (vs1 & vs2 & Hsplit).
  destruct (variant_listing_spec self v.1 (on_disk_now s))
    as (files & Hlist & Hsorted & Hfiles & Hdirs).
  exists (flat_map (fun variant_name =>
                      variant_listing self variant_name (on_disk_now s))
            (map fst vs1)),
    files,
    (flat_map (fun variant_name =>
                 variant_listing self variant_name (on_disk_now s))
       (map fst vs2)).
  split; [|by split].
  unfold _print_summary, say. cbn [printed on_disk_now]. rewrite Hsplit.
  rewrite map_app, flat_map_app. cbn [map flat_map]. rewrite Hlist.
  rewrite <- Hsplit.
  replace (length letters * length (VARIANTS (R:=R)))
    with (4 * length letters) by (cbn [VARIANTS length]; lia).
  done.
Qed.

(** A listed file, in the printed text. *)
Lemma print_summary_lists self letters s v name c :
  v ∈ VARIANTS (R:=R) ->
  FS.is_dir (on_disk_now s) (FS.join (output_dir self) v.1) = true ->
  FS.has_slash name = false -> Listing.ends_with ".stl" name = true ->
  FS.files (on_disk_now s)
    !! FS.str (FS.join (FS.join (output_dir self) v.1) name) = Some c ->
  FileLine name (length c) ∈ printed (_print_summary self letters s).
Proof.
  intros Hv Hd Hs He Hc.
  destruct (print_summary_spec self letters s v Hv)
    as (before & files & after & -> & _ & _ & Hfiles & _).
  assert ((name, Some (length c)) ∈ files) as Hin.
  { apply Hfiles. do 3 (split; [done|]). by exists c. }
  apply elem_of_app. right. apply list_elem_of_further.
  apply elem_of_app. right. apply list_elem_of_further.
  apply elem_of_app. left.
  apply list_elem_of_In, in_map_iff. exists (name, Some (length c)).
  split; [done|]. by apply list_elem_of_In.
Qed.

Lemma ends_with_append_r suffix a b :
  Listing.ends_with suffix b = true ->
  Listing.ends_with suffix (String.append a b) = true.
Proof.
  intros Hb. induction a as [|ch a IH]; [done|].
  change (String.append (String ch a) b) with (String ch (String.append a b)).
  cbn [Listing.ends_with]. rewrite IH. apply orb_true_r.
Qed.

Lemma letter_filename_stl letter variant_name :
  Listing.ends_with ".stl" (letter_filename letter variant_name) = true.
Proof.
  unfold letter_filename. do 3 apply ends_with_append_r.
  apply ends_with_append.
Qed.

Lemma letter_filename_simple letter variant_name :
  FS.has_slash letter = false -> FS.has_slash variant_name = false ->
  FS.has_slash (letter_filename letter variant_name) = false.
Proof.
  intros Hl Hv. unfold letter_filename.
  rewrite !has_slash_append, Hl, Hv. reflexivity.
Qed.

Lemma parent_output_file self letter v :
  v ∈ VARIANTS (R:=R) -> FS.has_slash letter = false ->
  FS.parent (output_file self letter v.1) = FS.join (output_dir self) v.1.
Proof.
  intros Hv Hl. destruct (variant_name_simple v Hv) as (Hvs & Hvne & Hvnd).
  rewrite output_file_parts, join_simple by done.
  unfold FS.parent. cbn [FS.anchored FS.parts]. f_equal.
  change [v.1; letter_filename letter v.1]
    with ([v.1] ++ [letter_filename letter v.1]).
  by rewrite app_assoc, removelast_last.
Qed.

(** When the mesh of a pair is built and serialised and the variant
    directory is in place, the iteration writes the output file. *)
Lemma variant_write_Some self letter v ds m bytes :
  v ∈ VARIANTS (R:=R) -> FS.has_slash letter = false ->
  letter_mesh_value self letter (thickness v.2) = Ok (Some m) ->
  stl_bytes m = Ok bytes ->
  FS.dir_present ds (FS.join (output_dir self) v.1) = true ->
  FS.dir_present ds (output_file self letter v.1) = false ->
  variant_write self letter v ds
    = Some (FS.str (output_file self letter v.1), bytes).
Proof.
  intros Hv Hl Hm Hb Hd Hnd. unfold variant_write.
  rewrite Hm, Hb, Hnd, parent_output_file, Hd by done. done.
Qed.

(** The batch lists what it exported and what it found. *)
Lemma batch_lists_exported title self letters s letter v m bytes :
  letter ∈ letters -> v ∈ VARIANTS (R:=R) -> FS.has_slash letter = false ->
  letter_mesh_value self letter (thickness v.2) = Ok (Some m) ->
  stl_bytes m = Ok bytes ->
  FS.is_dir (on_disk_now s) (FS.join (output_dir self) v.1) = true ->
  FS.is_dir (on_disk_now s) (output_file self letter v.1) = false ->
  exists s' size,
    batch title letters self s = (Ok tt, s') /\
    FS.stat_size (output_file self letter v.1) (on_disk_now s') = Ok size /\
    FileLine (letter_filename letter v.1) size ∈ printed s'.
Proof.
  intros Hl Hv Hsl Hm Hb Hd Hnd.
  destruct (variant_name_simple v Hv) as (Hvs & Hvne & Hvnd).
  destruct (batch_run title self letters s)
    as (evs & fs' & -> & _ & Hdirs & _ & Hwritten).
  destruct (Hwritten letter v _ bytes Hl Hv
              (variant_write_Some self letter v _ m bytes Hv Hsl Hm Hb Hd Hnd))
    as [c Hc].
  eexists _, (length c). split; [reflexivity|]. split.
  - unfold _print_summary, say, FS.stat_size. cbn [on_disk_now].
    unfold FS.content in *. by rewrite Hc.
  - apply (print_summary_lists self letters _ v); cbn [on_disk_now].
    + done.
    + unfold FS.is_dir in *. by rewrite Hdirs.
    + by apply letter_filename_simple.
    + apply letter_filename_stl.
    + exact Hc.
Qed.

Lemma batch_lists_earlier title self letters s v name c :
  v ∈ VARIANTS (R:=R) ->
  FS.is_dir (on_disk_now s) (FS.join (output_dir self) v.1) = true ->
  FS.has_slash name = false -> Listing.ends_with ".stl" name = true ->
  FS.files (on_disk_now s)
    !! FS.str (FS.join (FS.join (output_dir self) v.1) name) = Some c ->
  exists s' size,
    batch title letters self s = (Ok tt, s') /\
    FileLine name size ∈ printed s'.
Proof.
  intros Hv Hd Hs He Hc.
  destruct (batch_run title self letters s)
    as (evs & fs' & -> & _ & Hdirs & Hkeep & _).
  destruct (Hkeep _ (ex_intro _ c Hc)) as [c' Hc'].
  eexists _, (length c'). split; [reflexivity|].
  apply (print_summary_lists self letters _ v); cbn [on_disk_now]; try done.
  unfold FS.is_dir in *. by rewrite Hdirs.
Qed.
End BatchFacts.

(** ** The entry points *)

Section EntryClaims.
Context {R : Type} {SR : Scalar R} {L : Libs R}.
Implicit Types (self : generator) (letter name : string)
  (v : string * specs R) (s : session R) (argv : list string).

Lemma dir_prefix_child (d : FS.path) name :
  FS.has_slash name = false -> name <> ""%string -> name <> "."%string ->
  Listing.dir_prefix (FS.join d name)
  = String.append (String.append (Listing.dir_prefix d) name) "/".
Proof.
  intros Hs Hne Hnd. rewrite <- str_child by done.
  rewrite join_simple by done. unfold Listing.dir_prefix at 1.
  cbn [FS.parts]. by destruct (FS.parts d).
Qed.

(** The path string of an output file: the output directory, the
    variant, the file name. *)
Lemma str_output_file self letter v :
  v ∈ VARIANTS (R:=R) -> FS.has_slash letter = false ->
  FS.str (output_file self letter v.1)
  = String.append (Listing.dir_prefix (output_dir self))
      (String.append v.1
         (String.append "/" (letter_filename letter v.1))).
Proof.
  intros Hv Hl. destruct (variant_name_simple v Hv) as (Hvs & Hvne & Hvnd).
  destruct (ends_with_stl_name _ (letter_filename_stl letter v.1))
    as [Hfne Hfnd].
  unfold output_file.
  rewrite str_child by (done || by apply letter_filename_simple).
  rewrite dir_prefix_child by done. by rewrite !append_assoc.
Qed.

Lemma alphabet_single_character letter :
  letter ∈ FULL_ALPHABET -> exists ch, letter = String ch EmptyString.
Proof.
  unfold FULL_ALPHABET. rewrite !elem_of_cons, elem_of_nil.
  intros H. repeat (destruct H as [->|H]; [by eexists|]). done.
Qed.

Lemma output_file_inj self letter1 letter2 v1 v2 :
  letter1 ∈ FULL_ALPHABET -> letter2 ∈ FULL_ALPHABET ->
  v1 ∈ VARIANTS (R:=R) -> v2 ∈ VARIANTS (R:=R) ->
  FS.str (output_file self letter1 v1.1)
    = FS.str (output_file self letter2 v2.1) ->
  letter1 = letter2 /\ v1 = v2.
Proof.
  intros Hl1 Hl2 Hv1 Hv2.
  rewrite !str_output_file
    by (done || (apply processed_letters_no_slash, elem_of_app; by right)).
  intros Heq. apply (inj (String.append _)) in Heq.
  destruct (alphabet_single_character _ Hl1) as [c1 ->].
  destruct (alphabet_single_character _ Hl2) as [c2 ->].
  revert Hv1 Hv2 Heq. unfold VARIANTS, letter_filename.
  rewrite !elem_of_cons, !elem_of_nil.
  intros [->|[->|[->|[->|[]]]]] [->|[->|[->|[->|[]]]]] Heq;
    cbn in Heq; try discriminate Heq; by injection Heq as ->.
Qed.

(** X11.  No two pairs of a batch share an output file: for letters of the
    alphabet and variants of the table, two pairs that differ in the
    letter or in the variant have output files with different path
    strings, whatever the output directory, so that a run never overwrites
    what it wrote for another pair. *)
Theorem output_files_are_distinct self letter1 letter2 v1 v2 :
  letter1 ∈ FULL_ALPHABET -> letter2 ∈ FULL_ALPHABET ->
  v1 ∈ VARIANTS (R:=R) -> v2 ∈ VARIANTS (R:=R) ->
  letter1 <> letter2 \/ v1 <> v2 ->
  FS.str (output_file self letter1 v1.1)
    <> FS.str (output_file self letter2 v2.1).
Proof.
  intros Hl1 Hl2 Hv1 Hv2 Hne Heq.
  destruct (output_file_inj self _ _ _ _ Hl1 Hl2 Hv1 Hv2 Heq) as [-> ->].
  by destruct Hne.
Qed.

(** X12.  Both batch functions return normally whatever happens to the
    single pairs, after announcing every (letter, variant) pair once, the
    letters in the order of the letter set and under each letter the four
    variants in the order of the table: 26 * 4 = 104 pairs for the full
    alphabet and 7 * 4 = 28 for the CENTRIA letters. The batch prints its
    banner before and the summary after the progress lines, removes no
    directory and no file. *)
Theorem batch_attempts_every_pair self s :
  (exists evs fs',
     generate_full_alphabet self s
       = (Ok tt,
          _print_summary self FULL_ALPHABET
            (mk_session
               (printed s ++ Banner "FULL ALPHABET LIBRARY GENERATOR"
                  :: map Progress evs) fs')) /\
     List.filter is_attempt evs = attempts FULL_ALPHABET /\
     length (List.filter is_creating evs) = 104 /\
     FS.dirs fs' = FS.dirs (on_disk_now s) /\
     (forall p, is_Some (FS.files (on_disk_now s) !! p) ->
        is_Some (FS.files fs' !! p))) /\
  (exists evs fs',
     generate_centria_letters self s
       = (Ok tt,
          _print_summary self CENTRIA_LETTERS
            (mk_session
               (printed s ++ Banner "CENTRIA LETTER LIBRARY GENERATOR"
                  :: map Progress evs) fs')) /\
     List.filter is_attempt evs = attempts CENTRIA_LETTERS /\
     length (List.filter is_creating evs) = 28 /\
     FS.dirs fs' = FS.dirs (on_disk_now s) /\
     (forall p, is_Some (FS.files (on_disk_now s) !! p) ->
        is_Some (FS.files fs' !! p))).
Proof.
  rewrite generate_full_alphabet_batch, generate_centria_letters_batch.
  split.
  - destruct (batch_run "FULL ALPHABET LIBRARY GENERATOR" self
                FULL_ALPHABET s)
      as (evs & fs' & Hrun & Hf & Hd & Hkeep & _).
    exists evs, fs'. split; [exact Hrun|]. split; [exact Hf|].
    split; [|by split]. rewrite filter_creating_attempt, Hf. reflexivity.
  - destruct (batch_run "CENTRIA LETTER LIBRARY GENERATOR" self
                CENTRIA_LETTERS s)
      as (evs & fs' & Hrun & Hf & Hd & Hkeep & _).
    exists evs, fs'. split; [exact Hrun|]. split; [exact Hf|].
    split; [|by split]. rewrite filter_creating_attempt, Hf. reflexivity.
Qed.


(** X14.  The summary is not restricted to the files of the run: a [.stl]
    file that was in a variant directory before the batch started is
    listed by the summary of either batch function. *)
Theorem earlier_files_are_listed self s v name c :
  v ∈ VARIANTS (R:=R) ->
  FS.is_dir (on_disk_now s) (FS.join (output_dir self) v.1) = true ->
  FS.has_slash name = false -> Listing.ends_with ".stl" name = true ->
  FS.files (on_disk_now s)
    !! FS.str (FS.join (FS.join (output_dir self) v.1) name) = Some c ->
  (exists s' size,
     generate_centria_letters self s = (Ok tt, s') /\
     FileLine name size ∈ printed s') /\
  (exists s' size,
     generate_full_alphabet self s = (Ok tt, s') /\
     FileLine name size ∈ printed s').
Proof.
  intros Hv Hd Hs He Hc.
  rewrite generate_full_alphabet_batch, generate_centria_letters_batch.
  split.
  - by apply (batch_lists_earlier "CENTRIA LETTER LIBRARY GENERATOR" self
                CENTRIA_LETTERS s v name c).
  - by apply (batch_lists_earlier "FULL ALPHABET LIBRARY GENERATOR" self
                FULL_ALPHABET s v name c).
Qed.

(** X15.  Every file the batch exports is in its summary: when the mesh of
    a letter of the alphabet is built and serialised for a variant whose
    directory is in place, the full-alphabet batch returns normally, the
    output file of the pair is on the disk at the end, and the summary has
    a line with its name and its size. *)
Theorem exported_files_are_listed self s letter v m bytes :
  letter ∈ FULL_ALPHABET -> v ∈ VARIANTS (R:=R) ->
  letter_mesh_value self letter (thickness v.2) = Ok (Some m) ->
  stl_bytes m = Ok bytes ->
  FS.is_dir (on_disk_now s) (FS.join (output_dir self) v.1) = true ->
  FS.is_dir (on_disk_now s) (output_file self letter v.1) = false ->
  exists s' size,
    generate_full_alphabet self s = (Ok tt, s') /\
    FS.stat_size (output_file self letter v.1) (on_disk_now s') = Ok size /\
    FileLine (letter_filename letter v.1) size ∈ printed s'.
Proof.
  intros Hl Hv Hm Hb Hd Hnd. rewrite generate_full_alphabet_batch.
  apply (batch_lists_exported "FULL ALPHABET LIBRARY GENERATOR" self
           FULL_ALPHABET s letter v m bytes); try done.
  apply processed_letters_no_slash, elem_of_app. by right.
Qed.

Lemma say_nothing s : say [] s = s.
Proof.
  destruct s as [out fs]. unfold say. cbn [printed on_disk_now].
  by rewrite app_nil_r.
Qed.

Lemma full_flag argv :
  (1 <? length argv) && bool_decide (argv !! 1 = Some "--full"%string)
  = bool_decide (argv !! 1 = Some "--full"%string).
Proof.
  destruct (bool_decide_reflect (argv !! 1 = Some "--full"%string)) as [H|H];
    [|apply andb_false_r].
  apply lookup_lt_Some in H. rewrite andb_true_r. by apply Nat.ltb_lt.
Qed.

(** X16.  Once the imports and [__init__] have succeeded, [main] returns
    normally. It runs the full alphabet exactly when the first
    command-line argument is [--full] (further arguments, and the flag in
    any other position, are ignored) and the CENTRIA letters otherwise,
    announces every pair of the chosen batch, prints the tip after the
    summary of the CENTRIA batch only, and keeps every file that was on
    the disk. *)
Theorem main_runs_selected_batch argv s g w1 :
  __init__ (R:=R) default_output_dir default_font_size
    (mk_world [] (on_disk_now s)) = (Ok g, w1) ->
  exists evs fs',
    main Imported argv s
      = (Ok tt,
         say (if bool_decide (argv !! 1 = Some "--full"%string)
              then [] else [Tip])
           (_print_summary g
              (if bool_decide (argv !! 1 = Some "--full"%string)
               then FULL_ALPHABET else CENTRIA_LETTERS)
              (mk_session
                 (printed s ++ Banner "Centria Letter Library Generator"
                    :: Banner
                         (if bool_decide (argv !! 1 = Some "--full"%string)
                          then "FULL ALPHABET LIBRARY GENERATOR"
                          else "CENTRIA LETTER LIBRARY GENERATOR")
                    :: map Progress evs) fs'))) /\
    List.filter is_attempt evs
      = attempts (if bool_decide (argv !! 1 = Some "--full"%string)
                  then FULL_ALPHABET else CENTRIA_LETTERS) /\
    FS.dirs fs' = FS.dirs (disk w1) /\
    (forall p, is_Some (FS.files (on_disk_now s) !! p) ->
       is_Some (FS.files fs' !! p)).
Proof.
  intros Hinit.
  destruct (init_run _ _ _ _ _ Hinit) as (_ & Hc & _ & _ & _ & Hfiles).
  cbn [console disk] in Hc, Hfiles.
  unfold main. rewrite full_flag. unfold run.
  cbn [say printed on_disk_now]. rewrite Hinit, Hc. cbn [map].
  rewrite app_nil_r.
  destruct (bool_decide (argv !! 1 = Some "--full"%string)).
  - rewrite generate_full_alphabet_batch.
    destruct (batch_run "FULL ALPHABET LIBRARY GENERATOR"
                g FULL_ALPHABET
                (mk_session
                   (printed s ++ [Banner "Centria Letter Library Generator"])
                   (disk w1)))
      as (evs & fs' & -> & Hf & Hd & Hkeep & _).
    cbn [printed on_disk_now] in *. exists evs, fs'.
    rewrite say_nothing, <- app_assoc. split; [done|]. split; [done|].
    split; [done|]. intros p Hp. apply Hkeep. by rewrite Hfiles.
  - rewrite generate_centria_letters_batch.
    destruct (batch_run "CENTRIA LETTER LIBRARY GENERATOR"
                g CENTRIA_LETTERS
                (mk_session
                   (printed s ++ [Banner "Centria Letter Library Generator"])
                   (disk w1)))
      as (evs & fs' & -> & Hf & Hd & Hkeep & _).
    cbn [printed on_disk_now] in *. exists evs, fs'.
    rewrite <- app_assoc. split; [done|]. split; [done|].
    split; [done|]. intros p Hp. apply Hkeep. by rewrite Hfiles.
Qed.

End EntryClaims.

(** ** Closed instances of the entry points *)

Lemma output_files_are_distinct_witness :
  "A"%string ∈ FULL_ALPHABET /\ "B"%string ∈ FULL_ALPHABET /\
  Demo.pin64_variant ∈ VARIANTS (R:=spec_float) /\
  ("A"%string <> "B"%string \/ Demo.pin64_variant <> Demo.pin64_variant) /\
  FS.str (output_file Demo.gen "A" "pin")
    <> FS.str (output_file Demo.gen "B" "pin").
Proof.
  split; [apply list_elem_of_here|].
  split; [apply list_elem_of_further, list_elem_of_here|].
  split; [apply list_elem_of_here|]. split; [left; discriminate|].
  apply (output_files_are_distinct Demo.gen "A" "B" Demo.pin64_variant
           Demo.pin64_variant);
    [apply list_elem_of_here|apply list_elem_of_further, list_elem_of_here
    |apply list_elem_of_here|apply list_elem_of_here|left; discriminate].
Defined.


(** The summary of the CENTRIA letters on the disk of the earlier run:
    the total is 28, the file of the letter Z and the directory whose name
    ends in [.stl] are listed, the text file is not, and variant
    directories that do not exist are listed empty. *)
Example summary_on_earlier_run :
  printed (_print_summary Demo.gen CENTRIA_LETTERS Sample.earlier64)
  = [SummaryHeader (FS.mk_path false ["Centria_3D_Models"; "Letters_Library"])
       "C, E, N, T, R, I, A" 28;
     VariantHeader "pin" 2; FileLine "Letter_Z_pin.stl" 2;
     DirLine "previous.stl";
     VariantHeader "magnet" 0; VariantHeader "keyring" 0;
     VariantHeader "cake_mould" 0]%string.
Proof. vm_compute. reflexivity. Qed.

Lemma earlier_files_are_listed_witness :
  Demo.pin64_variant ∈ VARIANTS (R:=spec_float) /\
  FS.is_dir (on_disk_now Sample.earlier64)
    (FS.join (output_dir Demo.gen) "pin") = true /\
  FS.has_slash "Letter_Z_pin.stl" = false /\
  Listing.ends_with ".stl" "Letter_Z_pin.stl" = true /\
  FS.files (on_disk_now Sample.earlier64)
    !! FS.str (FS.join (FS.join (output_dir Demo.gen) "pin")
                 "Letter_Z_pin.stl")
    = Some [Byte.x00; Byte.x00] /\
  (exists s' size,
     generate_centria_letters (L:=Demo.libs64) Demo.gen Sample.earlier64
       = (Ok tt, s') /\
     FileLine "Letter_Z_pin.stl" size ∈ printed s') /\
  (exists s' size,
     generate_full_alphabet (L:=Demo.libs64) Demo.gen Sample.earlier64
       = (Ok tt, s') /\
     FileLine "Letter_Z_pin.stl" size ∈ printed s').
Proof.
  split; [apply list_elem_of_here|]. split; [vm_compute; reflexivity|].
  split; [reflexivity|]. split; [reflexivity|].
  split; [vm_compute; reflexivity|].
  apply (earlier_files_are_listed (L:=Demo.libs64) Demo.gen Sample.earlier64
           Demo.pin64_variant "Letter_Z_pin.stl" [Byte.x00; Byte.x00]);
    [apply list_elem_of_here|vm_compute; reflexivity|reflexivity|reflexivity
    |vm_compute; reflexivity].
Defined.

(** On the disk of the earlier run the CENTRIA batch announces a total
    of 28 files, 7 for each variant, and lists 9 entries under [pin]: its
    own 7 files, the file of the letter Z and the directory; the other
    variant directories do not exist and stay empty. *)
Example centria_batch_after_earlier_run :
  (fun r =>
     List.filter
       (fun line => match line with
                    | SummaryHeader _ _ _ | VariantHeader _ _ => true
                    | _ => false
                    end) (printed (snd r)))
    (generate_centria_letters (L:=Demo.libs64) Demo.gen Sample.earlier64)
  = [SummaryHeader (FS.mk_path false ["Centria_3D_Models"; "Letters_Library"])
       "C, E, N, T, R, I, A" 28;
     VariantHeader "pin" 9; VariantHeader "magnet" 0;
     VariantHeader "keyring" 0; VariantHeader "cake_mould" 0]%string.
Proof. vm_compute. reflexivity. Qed.

Lemma exported_files_are_listed_witness :
  "A"%string ∈ FULL_ALPHABET /\
  Demo.pin64_variant ∈ VARIANTS (R:=spec_float) /\
  letter_mesh_value (L:=Demo.libs64) Demo.gen "A"
      (thickness Demo.pin64_variant.2)
    = Ok (Some Sample.pin_mesh64) /\
  stl_bytes (Libs:=Demo.libs64) Sample.pin_mesh64 = Ok (repeat Byte.x00 8) /\
  FS.is_dir (on_disk_now Sample.ready_session64)
    (FS.join (output_dir Demo.gen) "pin") = true /\
  FS.is_dir (on_disk_now Sample.ready_session64)
    (output_file Demo.gen "A" "pin") = false /\
  exists s' size,
    generate_full_alphabet (L:=Demo.libs64) Demo.gen Sample.ready_session64
      = (Ok tt, s') /\
    FS.stat_size (output_file Demo.gen "A" "pin") (on_disk_now s') = Ok size /\
    FileLine (letter_filename "A" "pin") size ∈ printed s'.
Proof.
  split; [apply list_elem_of_here|]. split; [apply list_elem_of_here|].
  split; [vm_compute; reflexivity|]. split; [vm_compute; reflexivity|].
  split; [vm_compute; reflexivity|]. split; [vm_compute; reflexivity|].
  apply (exported_files_are_listed (L:=Demo.libs64) Demo.gen
           Sample.ready_session64 "A" Demo.pin64_variant Sample.pin_mesh64
           (repeat Byte.x00 8));
    [apply list_elem_of_here|apply list_elem_of_here
    |vm_compute; reflexivity..].
Defined.

Lemma main_runs_selected_batch_witness :
  __init__ (R:=spec_float) default_output_dir default_font_size
    (mk_world [] (on_disk_now Sample.fresh64))
    = (Ok Demo.gen, mk_world [] (FS.mk_state (FS.dirs (disk Demo.ready64)) ∅)) /\
  exists evs fs',
    main (L:=Demo.libs64) Imported Sample.argv_full Sample.fresh64
      = (Ok tt,
         say (if bool_decide (Sample.argv_full !! 1 = Some "--full"%string)
              then [] else [Tip])
           (_print_summary Demo.gen
              (if bool_decide (Sample.argv_full !! 1 = Some "--full"%string)
               then FULL_ALPHABET else CENTRIA_LETTERS)
              (mk_session
                 (printed Sample.fresh64
                    ++ Banner "Centria Letter Library Generator"
                    :: Banner
                         (if bool_decide
                               (Sample.argv_full !! 1 = Some "--full"%string)
                          then "FULL ALPHABET LIBRARY GENERATOR"
                          else "CENTRIA LETTER LIBRARY GENERATOR")
                    :: map Progress evs) fs'))) /\
    List.filter is_attempt evs
      = attempts (if bool_decide
                       (Sample.argv_full !! 1 = Some "--full"%string)
                  then FULL_ALPHABET else CENTRIA_LETTERS) /\
    FS.dirs fs' = FS.dirs (disk Demo.ready64) /\
    (forall p, is_Some (FS.files (on_disk_now Sample.fresh64) !! p) ->
       is_Some (FS.files fs' !! p)).
Proof.
  assert (__init__ (R:=spec_float) default_output_dir default_font_size
            (mk_world [] (on_disk_now Sample.fresh64))
          = (Ok Demo.gen,
             mk_world [] (FS.mk_state (FS.dirs (disk Demo.ready64)) ∅)))
    as Hinit by (vm_compute; reflexivity).
  split; [exact Hinit|].
  apply (main_runs_selected_batch (L:=Demo.libs64) Sample.argv_full
           Sample.fresh64 Demo.gen _ Hinit).
Defined.

(** From an empty disk: the default mode exports 28 files and ends with
    the tip, the full mode exports 104 files and does not. *)
Example main_default_mode :
  (fun r => (fst r, length (map_to_list (FS.files (on_disk_now (snd r)))),
             last (printed (snd r))))
    (main (L:=Demo.libs64) Imported Sample.argv_default Sample.fresh64)
  = (Ok tt, 28, Some Tip).
Proof. vm_compute. reflexivity. Qed.

Example main_full_mode :
  (fun r => (fst r, length (map_to_list (FS.files (on_disk_now (snd r)))),
             last (printed (snd r))))
    (main (L:=Demo.libs64) Imported Sample.argv_full Sample.fresh64)
  = (Ok tt, 104, Some (FileLine "Letter_Z_cake_mould.stl" 8)).
Proof. vm_compute. reflexivity. Qed.

